(** * Orange Telehealth: track identifiers, feed explosion, status broadcast

    A shallow embedding of the client code that carries media-track
    metadata between a hospital station and a technician station:

    - [app/routes/_room.$roomName.hospital.tsx]: the token written for each
      pushed camera track (the template literal of the push subscription)
      and the list of technician users the station displays;
    - [app/hooks/usePulledVideoTrack.tsx]: the parsing of such a token
      into a [TrackObject];
    - [app/routes/_room.$roomName.technician.tsx]: [hospitalUsers] and
      [hospitalFeeds], the explosion of a hospital user into one virtual
      user per camera and per screen share;
    - [app/hooks/useBroadcastStatus.ts]: the message sent on unmount;
    - [app/types/Messages.ts]: the [User] and [ClientMessage] shapes.

    JavaScript strings are embedded as [string]; the only character the
    code inspects is the separator, a single code unit.  An optional
    property ([x?: T]) is an [option]; both an absent property and one
    holding [undefined] are [None]. *)

From Stdlib Require Import String Ascii List Bool Arith Lia Sorted.
From Stdlib Require Import DecimalString.
From ExtLib Require Import Structures.Monad Structures.MonadState.
From ExtLib Require Import Data.Monads.StateMonad.
Import ListNotations.
Import MonadNotation.
Local Open Scope string_scope.
Local Open Scope list_scope.
Local Open Scope monad_scope.

(* ===================================================================== *)
(** * JavaScript primitives used by the code                              *)
(* ===================================================================== *)

Module JS.

(** Truthiness of a [string | undefined] value: [undefined] and the
    empty string are falsy, every other string is truthy. *)
Definition truthy (v : option string) : bool :=
  match v with
  | None => false
  | Some EmptyString => false
  | Some (String _ _) => true
  end.

(** [a || undefined] on a [string | undefined] operand. *)
Definition orUndefined (v : option string) : option string :=
  if truthy v then v else None.

(** [String.prototype.split] with a one-character separator: the pieces
    between all occurrences of the separator, in order; a string
    without separator is returned whole, in a one-element array. *)
Fixpoint split (sep : ascii) (s : string) : list string :=
  match s with
  | EmptyString => [EmptyString]
  | String c rest =>
      if Ascii.eqb c sep then EmptyString :: split sep rest
      else match split sep rest with
           | piece :: pieces => String c piece :: pieces
           | [] => [String c EmptyString]
           end
  end.

(** Array destructuring [const [x0, x1] = arr]: a missing position
    yields [undefined]. *)
Definition at_ (arr : list string) (i : nat) : option string :=
  nth_error arr i.

(** [Array.prototype.forEach((element, index) => ...)] where the callback
    updates a captured variable of type [St]. *)
Fixpoint forEach {A St : Type} (callback : A -> nat -> St -> St)
    (arr : list A) (index : nat) (st : St) : St :=
  match arr with
  | [] => st
  | element :: rest =>
      forEach callback rest (S index) (callback element index st)
  end.

(** [Array.prototype.push] of one element. *)
Definition push {A : Type} (arr : list A) (x : A) : list A := arr ++ [x].

(** Number-to-string conversion of a non-negative integer, as done by a
    template literal. *)
Definition numberToString (n : nat) : string :=
  NilEmpty.string_of_uint (Nat.to_uint n).

End JS.

(* ===================================================================== *)
(** * Track identifier: writing and parsing                               *)
(* ===================================================================== *)

Module TrackIdentifier.

(** The separator of the ["sessionId/trackName"] format. *)
Definition separator : ascii := "/"%char.

(** [~/utils/callsTypes] is not part of the sources at hand; the fields
    of [TrackObject] are the three the hook fills in. *)
Inductive Location := remote | local.

Record TrackObject := mkTrackObject {
  to_trackName : string;
  to_sessionId : string;
  to_location : Location
}.

(** hospital.tsx, line 215:
    [`${pushedTrack.sessionId}/${pushedTrack.trackName}`]. *)
Definition encode (sessionId trackName : string) : string :=
  sessionId ++ String separator trackName.

(** usePulledVideoTrack.tsx, line 69:
    [const [sessionId, trackName] = video?.split('/') ?? []]. *)
Definition parts (video : option string) : option string * option string :=
  let arr := match video with
             | Some v => JS.split separator v
             | None => []
             end in
  (JS.at_ arr 0, JS.at_ arr 1).

(** usePulledVideoTrack.tsx, lines 82-92: the memoised [trackObject]. *)
Definition trackObject (video : option string) : option TrackObject :=
  let '(sessionId, trackName) := parts video in
  match sessionId, trackName with
  | Some s, Some t =>
      if JS.truthy sessionId && JS.truthy trackName
      then Some (mkTrackObject t s remote)
      else None
  | _, _ => None
  end.

(** Parsing a token that is there. *)
Definition decode (token : string) : option TrackObject :=
  trackObject (Some token).

(** ** Vocabulary of the codec claims *)

Fixpoint contains_separator (s : string) : bool :=
  match s with
  | EmptyString => false
  | String c rest => Ascii.eqb c separator || contains_separator rest
  end.

Fixpoint count_separators (s : string) : nat :=
  match s with
  | EmptyString => 0
  | String c rest =>
      (if Ascii.eqb c separator then 1 else 0) + count_separators rest
  end.

Definition is_empty (s : string) : bool :=
  match s with EmptyString => true | String _ _ => false end.

(** A pair that is no valid track reference: one of its parts is empty
    or contains the separator. *)
Definition invalid_ref (sessionId trackName : string) : bool :=
  is_empty sessionId || is_empty trackName
  || contains_separator sessionId || contains_separator trackName.

(** The error kinds the specification names for the codec.  Neither
    occurs in the code: a template literal over two strings completes
    normally, and the hook yields [undefined] where it yields no
    object. *)
Inductive CodecError := InvalidTrackRef | MalformedTrackToken.

Inductive Completion (A : Type) :=
| Normal (value : A)
| Abrupt (error : CodecError).
Arguments Normal {A} value.
Arguments Abrupt {A} error.

(** Evaluation of the template literal of [encode]. *)
Definition encode_completion (sessionId trackName : string)
  : Completion string :=
  Normal (encode sessionId trackName).

(** Evaluation of lines 69-92 of the hook on a token. *)
Definition decode_completion (token : string)
  : Completion (option TrackObject) :=
  Normal (decode token).

End TrackIdentifier.

Import TrackIdentifier.

(* ===================================================================== *)
(** * Messages.ts: users and client messages                              *)
(* ===================================================================== *)

Module Messages.

Inductive UserRole := regular | hospital | technician.

Definition UserRole_eqb (a b : UserRole) : bool :=
  match a, b with
  | regular, regular | hospital, hospital | technician, technician => true
  | _, _ => false
  end.

(** One element of [tracks.cameras]. *)
Record Camera := mkCamera {
  deviceId : string;
  trackName : option string;
  enabled : bool
}.

Record Tracks := mkTracks {
  audio : option string;
  audioEnabled : option bool;
  audioUnavailable : bool;
  video : option string;
  videoEnabled : option bool;
  screenshare : option string;
  screenShareEnabled : option bool;
  cameras : option (list Camera)
}.

Record User := mkUser {
  id : string;
  name : string;
  transceiverSessionId : option string;
  raisedHand : bool;
  speaking : bool;
  joined : bool;
  role : option UserRole;
  tracks : Tracks
}.

(** The client messages the modelled code sends or could send; the other
    variants of the union play no part here. *)
Inductive ClientMessage :=
| userUpdate (user : User)
| userLeft
| heartbeat.

(** [u.role === r]. *)
Definition role_is (r : UserRole) (u : User) : bool :=
  match role u with
  | Some r' => UserRole_eqb r' r
  | None => false
  end.

End Messages.

Import Messages.

(* ===================================================================== *)
(** * Technician station: from hospital users to feeds                    *)
(* ===================================================================== *)

Module TechnicianStation.

(** What [console.log] has been called with. *)
Inductive LogEntry :=
| LogHospitalUsers
    (summary : list (string * string * option UserRole * nat
                     * option (list Camera)))
| LogCreatedFeeds (userName : string) (feedCount : nat).

Definition Console := list LogEntry.

(** The component body runs with the console as its only ambient state. *)
Definition Render := state Console.

Definition console_log (entry : LogEntry) : Render unit :=
  modify (fun console => console ++ [entry]) ;; ret tt.

(** [Array.prototype.flatMap] with a callback that may log. *)
Fixpoint flatMap {A B : Type} (callback : A -> Render (list B))
    (arr : list A) : Render (list B) :=
  match arr with
  | [] => ret []
  | x :: rest =>
      ys <- callback x ;;
      zs <- flatMap callback rest ;;
      ret (ys ++ zs)
  end.

(** Line 133: [otherUsers.filter((u) => u.role === 'hospital')]. *)
Definition hospitalUsers (otherUsers : list User) : list User :=
  filter (role_is hospital) otherUsers.

(** Lines 135-141: the argument of the first [console.log]. *)
Definition hospitalUsersSummary (users : list User) :=
  map (fun u =>
         (id u, name u, role u,
          match cameras (tracks u) with
          | Some cams => length cams
          | None => 0
          end,
          cameras (tracks u)))
      users.

(** Lines 191-208: the virtual user pushed for one camera. *)
Definition cameraFeed (user : User) (index : nat) (camera : Camera) : User :=
  {| id := id user ++ "-camera-" ++ deviceId camera;
     name := name user ++ " - Camera " ++ JS.numberToString (index + 1);
     transceiverSessionId := transceiverSessionId user;
     raisedHand := raisedHand user;
     speaking := speaking user;
     joined := joined user;
     role := role user;
     tracks :=
       {| audio := audio (tracks user);
          audioEnabled := audioEnabled (tracks user);
          audioUnavailable := audioUnavailable (tracks user);
          video := trackName camera;
          videoEnabled := Some (enabled camera);
          screenshare := None;
          screenShareEnabled := Some false;
          cameras := None |} |}.

(** Lines 220-234: the virtual user pushed for the screen share. *)
Definition screenshareFeed (user : User) : User :=
  {| id := id user ++ "-screenshare";
     name := name user ++ " - Screen";
     transceiverSessionId := transceiverSessionId user;
     raisedHand := raisedHand user;
     speaking := speaking user;
     joined := joined user;
     role := role user;
     tracks :=
       {| audio := audio (tracks user);
          audioEnabled := audioEnabled (tracks user);
          audioUnavailable := audioUnavailable (tracks user);
          video := screenshare (tracks user);
          videoEnabled := screenShareEnabled (tracks user);
          screenshare := None;
          screenShareEnabled := Some false;
          cameras := None |} |}.

(** Lines 188-210: the callback of [cameras.forEach], acting on the
    captured [feeds] array. *)
Definition pushCamera (user : User) (camera : Camera) (index : nat)
    (feeds : list User) : list User :=
  if JS.truthy (trackName camera) && enabled camera
  then JS.push feeds (cameraFeed user index camera)
  else feeds.

(** Lines 179-235: the [feeds] array of one user, before it is logged
    and returned. *)
Definition userFeeds (user : User) : list User :=
  let feeds := [] in
  let feeds :=
    match cameras (tracks user) with
    | Some cams =>
        if (0 <? length cams)%nat
        then JS.forEach (pushCamera user) cams 0 feeds
        else feeds
    | None => feeds
    end in
  if JS.truthy (screenshare (tracks user))
  then JS.push feeds (screenshareFeed user)
  else feeds.

(** Lines 178-240: the callback of [hospitalUsers.flatMap]. *)
Definition hospitalFeeds_callback (user : User) : Render (list User) :=
  let feeds := userFeeds user in
  console_log (LogCreatedFeeds (name user) (length feeds)) ;;
  ret feeds.

(** Line 178: [hospitalUsers.flatMap((user) => ...)]. *)
Definition hospitalFeeds (hospitalUsers : list User) : Render (list User) :=
  flatMap hospitalFeeds_callback hospitalUsers.

(** Lines 133-240 of [JoinedTechnicianStation]: from the [otherUsers] of
    the room context to the feeds handed to the layout. *)
Definition JoinedTechnicianStation (otherUsers : list User)
  : Render (list User) :=
  let users := hospitalUsers otherUsers in
  console_log (LogHospitalUsers (hospitalUsersSummary users)) ;;
  hospitalFeeds users.

(** The feeds of one render, on a given console. *)
Definition feedsOn (console : Console) (otherUsers : list User) : list User :=
  fst (runState (JoinedTechnicianStation otherUsers) console).

(** The feeds of a render that starts with an empty console. *)
Definition technicianFeeds (otherUsers : list User) : list User :=
  feedsOn [] otherUsers.

End TechnicianStation.

Import TechnicianStation.

(* ===================================================================== *)
(** * Hospital station: the users it displays                             *)
(* ===================================================================== *)

Module HospitalStation.

(** hospital.tsx, line 364:
    [otherUsers.filter((u) => u.role === 'technician')]; the result is
    handed to the layout as it is (line 503). *)
Definition technicianUsers (otherUsers : list User) : list User :=
  filter (role_is technician) otherUsers.

(** hospital.tsx, lines 205-222: the update of [cameraTracksInfo] when a
    push reports a track ([Some (sessionId, trackName)]) or its loss
    (the [console.log] of line 218 aside). *)
Definition onPushedTrack (cameraDeviceId : string) (cameraEnabled : bool)
    (pushedTrack : option (string * string)) (prev : list Camera)
  : list Camera :=
  let filtered :=
    filter (fun t => negb (String.eqb (deviceId t) cameraDeviceId)) prev in
  match pushedTrack with
  | Some (sessionId, trackName) =>
      filtered ++
      [ {| deviceId := cameraDeviceId;
           trackName := Some (encode sessionId trackName);
           enabled := cameraEnabled |} ]
  | None => filtered
  end.

(** hospital.tsx, lines 282-286: the cameras as they are put in the
    [userUpdate] message. *)
Definition serializedCameras (cameraTracksInfo : list Camera) : list Camera :=
  map (fun camera =>
         {| deviceId := deviceId camera;
            trackName := JS.orUndefined (trackName camera);
            enabled := enabled camera |})
      cameraTracksInfo.

End HospitalStation.

Import HospitalStation.

(* ===================================================================== *)
(** * useBroadcastStatus: what is sent over the web socket                *)
(* ===================================================================== *)

Module BroadcastStatus.

(** The fields of [userMedia] the hook reads. *)
Record UserMedia := mkUserMedia {
  um_audioEnabled : bool;
  um_videoEnabled : bool;
  um_screenShareEnabled : bool;
  um_audioUnavailableReason : option string
}.

Record PushedTracks := mkPushedTracks {
  pt_audio : option string;
  pt_video : option string;
  pt_screenshare : option string
}.

(** The hook's [Config], with the current value of
    [partyTracks.session$] in place of [partyTracks]. *)
Record Config := mkConfig {
  cfg_userMedia : UserMedia;
  cfg_identity : option User;
  cfg_pushedTracks : PushedTracks;
  cfg_raisedHand : bool;
  cfg_speaking : bool;
  cfg_role : option UserRole;
  cfg_sessionId : option string
}.

(** The socket, as the messages sent on it so far, oldest first.
    [JSON.stringify] is left out: the payload is the message value,
    whose [None] fields do not appear on the wire. *)
Definition WebSocket := list ClientMessage.

Definition send (message : ClientMessage) : state WebSocket unit :=
  modify (fun sent => sent ++ [message]) ;; ret tt.

(** Line 356: [audioUnavailableReason !== undefined]. *)
Definition audioUnavailableOf (cfg : Config) : bool :=
  match um_audioUnavailableReason (cfg_userMedia cfg) with
  | Some _ => true
  | None => false
  end.

(** Lines 358-359: [identity?.id] and [identity?.name]. *)
Definition idOf (cfg : Config) : option string := option_map id (cfg_identity cfg).
Definition nameOf (cfg : Config) : option string := option_map name (cfg_identity cfg).

(** Lines 388-405: the user of a regular status update. *)
Definition statusUser (cfg : Config) (id name : string) : User :=
  {| id := id;
     name := name;
     transceiverSessionId := cfg_sessionId cfg;
     raisedHand := cfg_raisedHand cfg;
     speaking := cfg_speaking cfg;
     joined := true;
     role := cfg_role cfg;
     tracks :=
       {| audio := pt_audio (cfg_pushedTracks cfg);
          audioEnabled := Some (um_audioEnabled (cfg_userMedia cfg));
          audioUnavailable := audioUnavailableOf cfg;
          video := pt_video (cfg_pushedTracks cfg);
          videoEnabled := Some (um_videoEnabled (cfg_userMedia cfg));
          screenshare := pt_screenshare (cfg_pushedTracks cfg);
          screenShareEnabled := Some (um_screenShareEnabled (cfg_userMedia cfg));
          cameras := None |} |}.


(** Lines 464-474: the user of the message sent on unmount. *)
Definition leavingUser (cfg : Config) (id name : string) : User :=
  {| id := id;
     name := name;
     transceiverSessionId := cfg_sessionId cfg;
     raisedHand := cfg_raisedHand cfg;
     speaking := cfg_speaking cfg;
     joined := false;
     role := None;
     tracks :=
       {| audio := None;
          audioEnabled := None;
          audioUnavailable := audioUnavailableOf cfg;
          video := None;
          videoEnabled := None;
          screenshare := None;
          screenShareEnabled := None;
          cameras := None |} |}.

(** Lines 459-478: the [useUnmount] callback. *)
Definition onUnmount (cfg : Config) : state WebSocket unit :=
  match idOf cfg, nameOf cfg with
  | Some id, Some name =>
      if JS.truthy (idOf cfg) && JS.truthy (nameOf cfg)
      then send (userUpdate (leavingUser cfg id name))
      else ret tt
  | _, _ => ret tt
  end.

(** The messages the unmount callback adds to the socket. *)
Definition sentOnUnmount (cfg : Config) (before : WebSocket) : WebSocket :=
  snd (runState (onUnmount cfg) before).

(** A [tracks] object whose only property is [audioUnavailable]. *)
Definition onlyAudioUnavailable (t : Tracks) : Prop :=
  t = {| audio := None; audioEnabled := None;
         audioUnavailable := audioUnavailable t;
         video := None; videoEnabled := None;
         screenshare := None; screenShareEnabled := None;
         cameras := None |}.

End BroadcastStatus.

Import BroadcastStatus.

(* ===================================================================== *)
(** * Room coordinator                                                    *)
(* ===================================================================== *)

Module Coordinator.

(** Modelled from the spec: the name under which the coordinator knows an
    attached connection session. *)
Definition SessionKey := nat.

(** Modelled from the spec: the connection session of section 2, with
    its identity binding and last-seen time.  The coordinator
    ([durableObjects/ChatRoom.server.ts]) is not among the sources. *)
Record Session := mkSession {
  ownedId : option string;
  lastSeen : nat
}.

(** Modelled from the spec: RoomState of section 3. *)
Record RoomState := mkRoomState {
  meetingId : option string;
  participants : list User
}.

(** Modelled from the spec: the error taxonomy of section 7 as far as
    [applyUpdate] is concerned.  The specification names no error for
    an empty participant id; it is [EmptyParticipantId] here. *)
Inductive UpdateError := IdentityConflict | EmptyParticipantId.

(** Modelled from the spec: the coordinator-to-client envelope of
    section 6. *)
Inductive ServerMessage :=
| roomStateMessage (state : RoomState)
| errorMessage (error : UpdateError).

(** Modelled from the spec: the coordinator, sole owner of the room
    state, with its attached sessions and the messages it has queued
    per session. *)
Record Room := mkRoom {
  roomState : RoomState;
  sessions : list (SessionKey * Session);
  queued : list (SessionKey * ServerMessage)
}.

(** Modelled from the spec: the attached session of a key, if any. *)
Fixpoint findSession (key : SessionKey) (ss : list (SessionKey * Session))
  : option Session :=
  match ss with
  | [] => None
  | (k, s) :: rest => if Nat.eqb k key then Some s else findSession key rest
  end.

(** Modelled from the spec: the update of an attached session in place. *)
Fixpoint setSession (key : SessionKey) (s : Session)
    (ss : list (SessionKey * Session)) : list (SessionKey * Session) :=
  match ss with
  | [] => []
  | (k, s') :: rest =>
      if Nat.eqb k key then (k, s) :: rest
      else (k, s') :: setSession key s rest
  end.

(** Modelled from the spec: "replaces the existing Participant with that
    id in RoomState wholesale (insert if absent)". *)
Fixpoint replaceParticipant (p : User) (ps : list User) : list User :=
  match ps with
  | [] => [p]
  | q :: rest =>
      if String.eqb (id q) (id p) then p :: rest
      else q :: replaceParticipant p rest
  end.

(** Modelled from the spec: "the Coordinator sends the entire current
    RoomState (not a delta) to every attached session". *)
Definition broadcast (r : Room) : Room :=
  {| roomState := roomState r;
     sessions := sessions r;
     queued := queued r ++
               map (fun ks => (fst ks, roomStateMessage (roomState r)))
                   (sessions r) |}.

(** Modelled from the spec: the rejection of an update, whose error
    notice goes "to the offending session only". *)
Definition reject (key : SessionKey) (e : UpdateError) (r : Room)
  : Room * option UpdateError :=
  ({| roomState := roomState r;
      sessions := sessions r;
      queued := queued r ++ [(key, errorMessage e)] |},
   Some e).

(** Modelled from the spec: [applyUpdate(session, participant)] of
    section 4.2.  A session that owns another id is refused with
    [IdentityConflict]; an empty id is refused; otherwise the session
    is bound to the id, the participant replaces the one with that id
    and the room state is broadcast.  A key that was never attached
    names no session, and nothing happens. *)
Definition applyUpdate (key : SessionKey) (participant : User) (r : Room)
  : Room * option UpdateError :=
  match findSession key (sessions r) with
  | None => (r, None)
  | Some s =>
      let conflict :=
        match ownedId s with
        | Some owned => negb (String.eqb owned (id participant))
        | None => false
        end in
      if conflict then reject key IdentityConflict r
      else if is_empty (id participant) then reject key EmptyParticipantId r
      else
        (broadcast
           {| roomState :=
                {| meetingId := meetingId (roomState r);
                   participants :=
                     replaceParticipant participant
                       (participants (roomState r)) |};
              sessions :=
                setSession key
                  {| ownedId := Some (id participant);
                     lastSeen := lastSeen s |}
                  (sessions r);
              queued := queued r |},
         None)
  end.

End Coordinator.

(* ===================================================================== *)
(** * Where a feed comes from                                             *)
(* ===================================================================== *)

(** The place of a feed in the input: the position of its user in
    [otherUsers], and either the position of its camera in the user's
    camera array or the screen share. *)
Inductive Slot :=
| CameraSlot (index : nat)
| ScreenshareSlot.

Definition Origin := (nat * Slot)%type.

(** Cameras by index, then the screen share. *)
Definition slot_lt (a b : Slot) : Prop :=
  match a, b with
  | CameraSlot i, CameraSlot j => i < j
  | CameraSlot _, ScreenshareSlot => True
  | ScreenshareSlot, _ => False
  end.

(** Users by position; within one user, slots by [slot_lt]. *)
Definition origin_lt (a b : Origin) : Prop :=
  fst a < fst b \/ (fst a = fst b /\ slot_lt (snd a) (snd b)).

(** [emitted_from otherUsers o f]: [f] is the virtual user built for the
    slot [snd o] of the user at position [fst o]. *)
Inductive emitted_from (otherUsers : list User) : Origin -> User -> Prop :=
| emitted_camera : forall p i user cams camera,
    nth_error otherUsers p = Some user ->
    cameras (tracks user) = Some cams ->
    nth_error cams i = Some camera ->
    emitted_from otherUsers (p, CameraSlot i) (cameraFeed user i camera)
| emitted_screenshare : forall p user,
    nth_error otherUsers p = Some user ->
    emitted_from otherUsers (p, ScreenshareSlot) (screenshareFeed user).

(** The camera array with the index [forEach] passes for each element. *)
Definition indexedFrom (start : nat) (cams : list Camera) : list (nat * Camera) :=
  combine (seq start (length cams)) cams.

Definition indexed (cams : list Camera) : list (nat * Camera) :=
  indexedFrom 0 cams.

(** The test of line 190 on an indexed camera. *)
Definition active (ic : nat * Camera) : bool :=
  JS.truthy (trackName (snd ic)) && enabled (snd ic).

(** The feeds of the cameras of a user that pass the test, in the order of
    the camera array. *)
Definition cameraFeeds (user : User) : list User :=
  match cameras (tracks user) with
  | Some cams =>
      map (fun ic => cameraFeed user (fst ic) (snd ic))
          (filter active (indexed cams))
  | None => []
  end.

(** The feed of the screen share of a user, if there is one. *)
Definition screenshareFeeds (user : User) : list User :=
  if JS.truthy (screenshare (tracks user)) then [screenshareFeed user] else [].

(** A virtual user that yields no feed of its own. *)
Definition not_expandable (feed : User) : Prop :=
  cameras (tracks feed) = None /\ screenshare (tracks feed) = None.

(** The origins of the feeds of the user at position [p]. *)
Definition userOrigins (p : nat) (user : User) : list Origin :=
  match cameras (tracks user) with
  | Some cams =>
      map (fun ic => (p, CameraSlot (fst ic))) (filter active (indexed cams))
  | None => []
  end
  ++ (if JS.truthy (screenshare (tracks user)) then [(p, ScreenshareSlot)] else []).

(** The origins of the feeds of the users that stand at positions
    [p], [p + 1], ... *)
Fixpoint originsFrom (p : nat) (users : list User) : list Origin :=
  match users with
  | [] => []
  | user :: rest =>
      (if role_is hospital user then userOrigins p user else [])
      ++ originsFrom (S p) rest
  end.

(** The scenario of the specification: user "h1" with an enabled camera
    "d1", a disabled camera "d2" and a screen share. *)
Definition h1 : User :=
  {| id := "h1"; name := "Hospital A";
     transceiverSessionId := Some "s1";
     raisedHand := false; speaking := false; joined := true;
     role := Some hospital;
     tracks :=
       {| audio := None; audioEnabled := None; audioUnavailable := false;
          video := None; videoEnabled := Some false;
          screenshare := Some "s1/scr"; screenShareEnabled := Some true;
          cameras :=
            Some [ {| deviceId := "d1"; trackName := Some "s1/v1";
                      enabled := true |};
                   {| deviceId := "d2"; trackName := Some "s1/v2";
                      enabled := false |} ] |} |}.

(** A regular participant with the given id and no track. *)
Definition plainUser (userId : string) : User :=
  {| id := userId; name := userId;
     transceiverSessionId := None;
     raisedHand := false; speaking := false; joined := true;
     role := Some regular;
     tracks :=
       {| audio := None; audioEnabled := None; audioUnavailable := false;
          video := None; videoEnabled := None;
          screenshare := None; screenShareEnabled := None;
          cameras := None |} |}.

(** A room whose session 7 is bound to participant "a". *)
Definition roomOfA : Coordinator.Room :=
  {| Coordinator.roomState :=
       {| Coordinator.meetingId := None;
          Coordinator.participants := [plainUser "a"] |};
     Coordinator.sessions :=
       [(7, {| Coordinator.ownedId := Some "a"; Coordinator.lastSeen := 0 |})];
     Coordinator.queued := [] |}.

(** A technician with a camera of their own. *)
Definition drSmith : User :=
  {| id := "user-456"; name := "Dr. Smith";
     transceiverSessionId := Some "session-def";
     raisedHand := false; speaking := false; joined := true;
     role := Some technician;
     tracks :=
       {| audio := Some "session-def/audio-1"; audioEnabled := Some true;
          audioUnavailable := false;
          video := Some "session-def/video-1"; videoEnabled := Some true;
          screenshare := None; screenShareEnabled := Some false;
          cameras := None |} |}.

(* ===================================================================== *)
(** * More JavaScript primitives: maps and joins                          *)
(* ===================================================================== *)

Module JSMap.

(** A [Map<string, V>], as its entries in insertion order. *)
Definition t (V : Type) := list (string * V).

(** [Map.prototype.get]. *)
Fixpoint get {V : Type} (m : t V) (key : string) : option V :=
  match m with
  | [] => None
  | (k, v) :: rest => if String.eqb k key then Some v else get rest key
  end.

(** [Map.prototype.has]. *)
Definition has {V : Type} (m : t V) (key : string) : bool :=
  match get m key with Some _ => true | None => false end.

(** [new Map(m).set(key, value)]: the value of a key that is there is
    replaced where it stands; a new key goes to the end. *)
Fixpoint set {V : Type} (m : t V) (key : string) (value : V) : t V :=
  match m with
  | [] => [(key, value)]
  | (k, v) :: rest =>
      if String.eqb k key then (k, value) :: rest
      else (k, v) :: set rest key value
  end.

(** [new Map(m)] followed by [delete(key)]. *)
Fixpoint delete {V : Type} (m : t V) (key : string) : t V :=
  match m with
  | [] => []
  | (k, v) :: rest =>
      if String.eqb k key then rest else (k, v) :: delete rest key
  end.

(** [Array.from(m.values())]. *)
Definition values {V : Type} (m : t V) : list V := map snd m.

(** [Array.from(m.keys())]. *)
Definition keys {V : Type} (m : t V) : list string := map fst m.

(** [Array.prototype.join] on strings. *)
Fixpoint join (sep : string) (arr : list string) : string :=
  match arr with
  | [] => EmptyString
  | [x] => x
  | x :: rest => x ++ sep ++ join sep rest
  end.

End JSMap.

(* ===================================================================== *)
(** * useMultiCamera: the set of active cameras                           *)
(* ===================================================================== *)

Module MultiCamera.

(** A [MediaStream] obtained from [getUserMedia], with the
    [BehaviorSubject] built around its video track; both are named by
    the stream. *)
Definition StreamHandle := nat.

Inductive DeviceKind := videoinput | audioinput | audiooutput.

(** The fields of [MediaDeviceInfo] the hook reads. *)
Record MediaDeviceInfo := mkDevice {
  md_deviceId : string;
  md_kind : DeviceKind;
  md_label : string
}.

Record CameraStream := mkCameraStream {
  cs_deviceId : string;
  cs_label : string;
  cs_stream : StreamHandle;
  cs_enabled : bool
}.

(** What the hook does to streams and subjects, in order:
    [track.stop()] on every track of a stream, [track.enabled = b] on
    its video tracks, [track$.next(track)] ([true]) or [track$.next(null)]
    ([false]), and [track$.complete()]. *)
Inductive MediaEffect :=
| StopTracks (stream : StreamHandle)
| SetVideoEnabled (stream : StreamHandle) (enabled : bool)
| SubjectNext (stream : StreamHandle) (track : bool)
| SubjectComplete (stream : StreamHandle).

Definition Media := state (list MediaEffect).

Definition media (e : MediaEffect) : Media unit :=
  modify (fun done => done ++ [e]) ;; ret tt.

Definition CameraMap := JSMap.t CameraStream.

(** Line 565: [allDevices.filter((d) => d.kind === 'videoinput')]. *)
Definition videoDevices (allDevices : list MediaDeviceInfo)
  : list MediaDeviceInfo :=
  filter (fun d => match md_kind d with videoinput => true | _ => false end)
         allDevices.

(** Line 648: [devices.find((d) => d.deviceId === deviceId)]. *)
Definition findDevice (devices : list MediaDeviceInfo) (deviceId : string)
  : option MediaDeviceInfo :=
  find (fun d => String.eqb (md_deviceId d) deviceId) devices.

(** Line 653: [device?.label || `Camera ${deviceId.slice(0, 8)}`]. *)
Definition labelFor (devices : list MediaDeviceInfo) (deviceId : string)
  : string :=
  match findDevice devices deviceId with
  | Some device =>
      if JS.truthy (Some (md_label device)) then md_label device
      else "Camera " ++ substring 0 8 deviceId
  | None => "Camera " ++ substring 0 8 deviceId
  end.

(** Lines 645-660: what [addCamera] does to the map once [getUserMedia]
    has given the stream; [devices] is the list the callback was built
    with. *)
Definition addCamera_resolved (devices : list MediaDeviceInfo)
    (deviceId : string) (stream : StreamHandle) (prev : CameraMap)
  : CameraMap :=
  JSMap.set prev deviceId
    {| cs_deviceId := deviceId;
       cs_label := labelFor devices deviceId;
       cs_stream := stream;
       cs_enabled := true |}.

(** Line 664: the error set when [getUserMedia] fails; [message] is
    [err.message] when [err] is an [Error]. *)
Definition addCamera_error (message : option string) : string :=
  "Failed to add camera: " ++
  match message with Some m => m | None => "Unknown error" end.

(** Lines 693-722: the updater of [removeCamera]. *)
Definition removeCamera (deviceId : string) (prev : CameraMap)
  : Media CameraMap :=
  match JSMap.get prev deviceId with
  | Some camera =>
      media (StopTracks (cs_stream camera)) ;;
      media (SubjectNext (cs_stream camera) false) ;;
      media (SubjectComplete (cs_stream camera)) ;;
      ret (JSMap.delete prev deviceId)
  | None => ret prev
  end.

(** Lines 747-784: the updater of [toggleCamera]. *)
Definition toggleCamera (deviceId : string) (enabled : bool) (prev : CameraMap)
  : Media CameraMap :=
  match JSMap.get prev deviceId with
  | Some camera =>
      media (SetVideoEnabled (cs_stream camera) enabled) ;;
      let updated :=
        {| cs_deviceId := cs_deviceId camera;
           cs_label := cs_label camera;
           cs_stream := cs_stream camera;
           cs_enabled := enabled |} in
      let next := JSMap.set prev deviceId updated in
      media (SubjectNext (cs_stream camera) enabled) ;;
      ret next
  | None => ret prev
  end.

(** Lines 801-807: the loop of the cleanup on unmount, over the map the
    effect closed over. *)
Fixpoint stopAll (cameras : CameraMap) : Media unit :=
  match cameras with
  | [] => ret tt
  | (_, camera) :: rest =>
      media (StopTracks (cs_stream camera)) ;;
      media (SubjectComplete (cs_stream camera)) ;;
      stopAll rest
  end.

(** The state of one mounted hook: the three [useState] cells, and the
    [cameras] value of the first render, which is the one the effect
    with the empty dependency list (lines 799-812) closes over. *)
Record Hook := mkHook {
  h_devices : list MediaDeviceInfo;
  h_cameras : CameraMap;
  h_error : option string;
  h_camerasAtMount : CameraMap
}.

(** The first render: [useState([])], [useState(new Map())],
    [useState()]. *)
Definition mount : Hook :=
  {| h_devices := []; h_cameras := []; h_error := None;
     h_camerasAtMount := [] |}.

(** What can happen to a mounted hook. *)
Inductive Action :=
| DevicesEnumerated (allDevices : list MediaDeviceInfo)
| EnumerationFailed
| AddResolved (devices : list MediaDeviceInfo) (deviceId : string)
              (stream : StreamHandle)
| AddRejected (message : option string)
| Remove (deviceId : string)
| Toggle (deviceId : string) (enabled : bool).

Definition withCameras (h : Hook) (cameras : CameraMap) : Hook :=
  {| h_devices := h_devices h; h_cameras := cameras; h_error := h_error h;
     h_camerasAtMount := h_camerasAtMount h |}.

Definition withError (h : Hook) (error : option string) : Hook :=
  {| h_devices := h_devices h; h_cameras := h_cameras h; h_error := error;
     h_camerasAtMount := h_camerasAtMount h |}.

Definition step (a : Action) (h : Hook) : Media Hook :=
  match a with
  | DevicesEnumerated allDevices =>
      ret {| h_devices := videoDevices allDevices;
             h_cameras := h_cameras h; h_error := h_error h;
             h_camerasAtMount := h_camerasAtMount h |}
  | EnumerationFailed => ret (withError h (Some "Failed to enumerate devices"))
  | AddResolved devices deviceId stream =>
      ret (withError
             (withCameras h (addCamera_resolved devices deviceId stream
                               (h_cameras h)))
             None)
  | AddRejected message => ret (withError h (Some (addCamera_error message)))
  | Remove deviceId =>
      cameras <- removeCamera deviceId (h_cameras h) ;;
      ret (withCameras h cameras)
  | Toggle deviceId enabled =>
      cameras <- toggleCamera deviceId enabled (h_cameras h) ;;
      ret (withCameras h cameras)
  end.

Fixpoint run (actions : list Action) (h : Hook) : Media Hook :=
  match actions with
  | [] => ret h
  | a :: rest => h' <- step a h ;; run rest h'
  end.

(** Lines 799-808: the cleanup that runs when the hook is unmounted. *)
Definition unmount (h : Hook) : Media unit := stopAll (h_camerasAtMount h).

(** Line 816: the [cameras] the hook returns. *)
Definition activeCameras (h : Hook) : list CameraStream :=
  JSMap.values (h_cameras h).

(** The hook after some actions, and what it did to the media meanwhile. *)
Definition after (actions : list Action) : Hook :=
  fst (runState (run actions mount) []).

End MultiCamera.

(* ===================================================================== *)
(** * Hospital station: what it tells the room                            *)
(* ===================================================================== *)

Module HospitalBroadcast.

Import MultiCamera.

(** hospital.tsx, lines 146-149: the dependency of the push effect. *)
Definition cameraDeviceIds (cameras : list CameraStream) : string :=
  JSMap.join "," (map cs_deviceId cameras).

(** hospital.tsx, lines 230-233: the entries of cameras that are gone are
    dropped. *)
Definition retainActive (cameras : list CameraStream) (prev : list Camera)
  : list Camera :=
  let currentDeviceIds := map cs_deviceId cameras in
  filter (fun t => existsb (String.eqb (deviceId t)) currentDeviceIds) prev.

(** hospital.tsx, lines 202-223: the subscriber of the push of one
    camera, as an update of [cameraTracksInfo] (its two [console.log]
    calls aside). *)
Definition onCameraPushed (camera : CameraStream)
    (pushedTrack : option (string * string)) (prev : list Camera)
  : list Camera :=
  onPushedTrack (cs_deviceId camera) (cs_enabled camera) pushedTrack prev.

(** What the broadcast effect of the station reads. *)
Record Station := mkStation {
  st_identity : option User;
  st_sessionId : option string;
  st_speaking : bool;
  st_pushedTracks : PushedTracks;
  st_userMedia : UserMedia;
  st_cameraTracksInfo : list Camera
}.

(** hospital.tsx, lines 297-316: the user of the station. *)
Definition stationUser (st : Station) (id name sessionId : string) : User :=
  let cams := serializedCameras (st_cameraTracksInfo st) in
  {| id := id;
     name := name;
     transceiverSessionId := Some sessionId;
     raisedHand := false;
     speaking := st_speaking st;
     joined := true;
     role := Some hospital;
     tracks :=
       {| audio := pt_audio (st_pushedTracks st);
          audioEnabled := Some (um_audioEnabled (st_userMedia st));
          audioUnavailable :=
            match um_audioUnavailableReason (st_userMedia st) with
            | Some _ => true
            | None => false
            end;
          video := None;
          videoEnabled := Some false;
          screenshare := pt_screenshare (st_pushedTracks st);
          screenShareEnabled := Some (um_screenShareEnabled (st_userMedia st));
          cameras := if (0 <? length cams)%nat then Some cams else None |} |}.

(** hospital.tsx, lines 269-337: the message the effect builds, if the
    identity and the session are there; the socket is an object and so
    passes the test of line 273. *)
Definition stationMessage (st : Station) : option ClientMessage :=
  match option_map id (st_identity st), option_map name (st_identity st),
        st_sessionId st with
  | Some id, Some name, Some sessionId =>
      if JS.truthy (Some id) && JS.truthy (Some name)
         && JS.truthy (Some sessionId)
      then Some (userUpdate (stationUser st id name sessionId))
      else None
  | _, _, _ => None
  end.

End HospitalBroadcast.

(** The stream a media effect acts on. *)
Definition streamOf (e : MultiCamera.MediaEffect) : MultiCamera.StreamHandle :=
  match e with
  | MultiCamera.StopTracks stream => stream
  | MultiCamera.SetVideoEnabled stream _ => stream
  | MultiCamera.SubjectNext stream _ => stream
  | MultiCamera.SubjectComplete stream => stream
  end.

(** The streams [getUserMedia] has handed to the hook. *)
Definition addedStreams (actions : list MultiCamera.Action)
  : list MultiCamera.StreamHandle :=
  flat_map (fun a => match a with
                     | MultiCamera.AddResolved _ _ stream => [stream]
                     | _ => []
                     end)
           actions.

(** A camera map whose entries stand under their own device id, each
    device id once. *)
Definition wellKeyed (m : MultiCamera.CameraMap) : Prop :=
  NoDup (JSMap.keys m) /\
  Forall (fun kv => MultiCamera.cs_deviceId (snd kv) = fst kv) m.

(** A hook that is in order with respect to the streams it was handed:
    its map is well keyed, every camera has a label, every camera's
    stream is one of those streams, the map its cleanup closed over is
    the empty one of the first render, and it has touched no other
    stream. *)
Definition inOrder (streams : list MultiCamera.StreamHandle)
    (h : MultiCamera.Hook) (done : list MultiCamera.MediaEffect) : Prop :=
  wellKeyed (MultiCamera.h_cameras h) /\
  Forall (fun kv => is_empty (MultiCamera.cs_label (snd kv)) = false)
         (MultiCamera.h_cameras h) /\
  Forall (fun kv => In (MultiCamera.cs_stream (snd kv)) streams)
         (MultiCamera.h_cameras h) /\
  MultiCamera.h_camerasAtMount h = [] /\
  Forall (fun e => In (streamOf e) streams) done.

(** A user with another camera array. *)
Definition withCameraArray (user : User) (cams : option (list Camera)) : User :=
  {| id := id user; name := name user;
     transceiverSessionId := transceiverSessionId user;
     raisedHand := raisedHand user; speaking := speaking user;
     joined := joined user; role := role user;
     tracks :=
       {| audio := audio (tracks user);
          audioEnabled := audioEnabled (tracks user);
          audioUnavailable := audioUnavailable (tracks user);
          video := video (tracks user);
          videoEnabled := videoEnabled (tracks user);
          screenshare := screenshare (tracks user);
          screenShareEnabled := screenShareEnabled (tracks user);
          cameras := cams |} |}.


(* ===================================================================== *)
(** * Proofs: track identifiers                                           *)
(* ===================================================================== *)

Section TrackIdentifierFacts.

Lemma split_not_nil (s : string) : JS.split separator s <> [].
Proof.
  destruct s as [|c s]; simpl; [discriminate|].
  destruct (Ascii.eqb c separator); [discriminate|].
  destruct (JS.split separator s); discriminate.
Qed.

(** Every string is either free of separators, and then split into
    itself, or a separator-free piece, a separator and a remainder that
    is split in turn. *)
Lemma split_cases (s : string) :
  (contains_separator s = false /\ JS.split separator s = [s]) \/
  (exists a r, contains_separator a = false /\
               s = (a ++ String separator r)%string /\
               JS.split separator s = a :: JS.split separator r).
Proof.
  induction s as [|c s IH]; simpl.
  - left; auto.
  - destruct (Ascii.eqb c separator) eqn:E.
    + right. exists EmptyString, s. apply Ascii.eqb_eq in E. subst c.
      repeat split; reflexivity.
    + simpl. destruct IH as [[Hfree Hs] | (a & r & Hfree & Hs & Hsplit)].
      * left. rewrite Hs. auto.
      * right. exists (String c a), r. rewrite Hsplit. simpl. rewrite E.
        repeat split; auto. now rewrite Hs.
Qed.

Lemma split_sepfree (s : string) :
  contains_separator s = false -> JS.split separator s = [s].
Proof.
  induction s as [|c s IH]; simpl; [reflexivity|].
  intros H. apply orb_false_iff in H as [E H]. rewrite E, (IH H). reflexivity.
Qed.

Lemma split_append (a r : string) :
  contains_separator a = false ->
  JS.split separator (a ++ String separator r)%string
  = a :: JS.split separator r.
Proof.
  induction a as [|c a IH]; simpl; intros H.
  - reflexivity.
  - apply orb_false_iff in H as [E H]. rewrite E, (IH H). reflexivity.
Qed.

Lemma split_pieces_sepfree (s : string) :
  Forall (fun piece => contains_separator piece = false) (JS.split separator s).
Proof.
  induction s as [|c s IH]; simpl.
  - repeat constructor.
  - destruct (Ascii.eqb c separator) eqn:E.
    + constructor; [reflexivity | exact IH].
    + destruct (JS.split separator s) as [|p ps].
      * repeat constructor. simpl. now rewrite E.
      * inversion IH; subst. constructor; [simpl; now rewrite E | assumption].
Qed.

(** The object the hook builds from the first two pieces of a token. *)
Lemma decode_pieces (token a b : string) (rest : list string) :
  JS.split separator token = a :: b :: rest ->
  decode token =
    if is_empty a || is_empty b then None else Some (mkTrackObject b a remote).
Proof.
  intros H. unfold decode, trackObject, parts. rewrite H.
  destruct a, b; reflexivity.
Qed.

Lemma decode_one_piece (token a : string) :
  JS.split separator token = [a] -> decode token = None.
Proof. intros H. unfold decode, trackObject, parts. now rewrite H. Qed.

(** Whatever the hook returns has two non-empty, separator-free parts. *)
Lemma decode_Some_inv (token : string) (o : TrackObject) :
  decode token = Some o ->
  is_empty (to_sessionId o) = false /\ is_empty (to_trackName o) = false /\
  contains_separator (to_sessionId o) = false /\
  contains_separator (to_trackName o) = false.
Proof.
  intros H. pose proof (split_pieces_sepfree token) as Hfree.
  destruct (JS.split separator token) as [|a [|b rest]] eqn:Hsplit.
  - now apply split_not_nil in Hsplit.
  - rewrite (decode_one_piece _ _ Hsplit) in H. discriminate.
  - rewrite (decode_pieces _ _ _ _ Hsplit) in H.
    inversion Hfree as [|? ? Ha Hfree']; subst.
    inversion Hfree' as [|? ? Hb _]; subst.
    destruct (is_empty a) eqn:Ea, (is_empty b) eqn:Eb; simpl in H;
      try discriminate.
    inversion H; subst; simpl. auto.
Qed.

End TrackIdentifierFacts.

Example split_two_pieces :
  JS.split separator "session-abc/video-1" = ["session-abc"; "video-1"].
Proof. reflexivity. Qed.

Example split_keeps_empty_pieces :
  JS.split separator "/a//b/" = [""; "a"; ""; "b"; ""].
Proof. reflexivity. Qed.

Example decode_sample :
  decode "session-abc/video-1"
  = Some {| to_trackName := "video-1"; to_sessionId := "session-abc";
            to_location := remote |}.
Proof. reflexivity. Qed.

Example decode_without_separator : decode "session-abc" = None.
Proof. reflexivity. Qed.

Example decode_empty_track : decode "session-abc/" = None.
Proof. reflexivity. Qed.

Example trackObject_of_undefined : trackObject None = None.
Proof. reflexivity. Qed.

(** C1. Round trip: when [sessionId] and [trackName] are both non-empty
    and neither contains the separator ["/"], parsing the token
    [sessionId + "/" + trackName] gives back exactly that session id and
    that track name. *)
Theorem decode_encode_roundtrip (sessionId trackName : string) :
  is_empty sessionId = false ->
  is_empty trackName = false ->
  contains_separator sessionId = false ->
  contains_separator trackName = false ->
  decode (encode sessionId trackName)
  = Some {| to_trackName := trackName;
            to_sessionId := sessionId;
            to_location := remote |}.
Proof.
  intros Hs Ht Fs Ft.
  assert (Hsplit : JS.split separator (encode sessionId trackName)
                   = [sessionId; trackName]).
  { unfold encode. rewrite (split_append _ _ Fs), (split_sepfree _ Ft).
    reflexivity. }
  rewrite (decode_pieces _ _ _ _ Hsplit), Hs, Ht. reflexivity.
Qed.

Lemma decode_encode_roundtrip_witness :
  decode (encode "abc123def456" "video-camera-1")
  = Some {| to_trackName := "video-camera-1";
            to_sessionId := "abc123def456";
            to_location := remote |}.
Proof.
  apply (decode_encode_roundtrip "abc123def456" "video-camera-1");
    reflexivity.
Defined.

(** C3, as stated, fails at the token ["a/b/c"]: it holds two separators,
    yet the hook completes normally with the object of session ["a"] and
    track ["b"]; the third part is dropped. *)
Lemma decode_failure_counterexample :
  count_separators "a/b/c" = 2 /\
  decode_completion "a/b/c"
  = Normal (Some {| to_trackName := "b"; to_sessionId := "a";
                    to_location := remote |}) /\
  ~ (forall token, count_separators token <> 1 -> decode token = None).
Proof.
  split; [reflexivity | split; [reflexivity |]].
  intros H. specialize (H "a/b/c"). discriminate H. simpl. discriminate.
Qed.

(** C3, amended. Parsing never raises an error.  It cuts the token at
    every separator and keeps the first two pieces: a token without
    separator yields no object; a token of the shape [a/b] or [a/b/rest],
    with [a] and [b] free of separators, yields no object when [a] or [b]
    is empty and the object of session [a] and track [b] otherwise,
    whatever follows the second separator.  Every token has one of these
    shapes. *)
Theorem decode_behaviour (token : string) :
  decode_completion token = Normal (decode token) /\
  (contains_separator token = false -> decode token = None) /\
  (forall a b : string,
      contains_separator a = false ->
      contains_separator b = false ->
      token = (a ++ "/" ++ b)%string \/
      (exists rest : string, token = (a ++ "/" ++ b ++ "/" ++ rest)%string) ->
      decode token
      = if is_empty a || is_empty b then None
        else Some {| to_trackName := b; to_sessionId := a;
                     to_location := remote |}) /\
  (contains_separator token = false \/
   exists a b : string,
     contains_separator a = false /\ contains_separator b = false /\
     (token = (a ++ "/" ++ b)%string \/
      exists rest : string, token = (a ++ "/" ++ b ++ "/" ++ rest)%string)).
Proof.
  split; [reflexivity | split; [| split]].
  - intros H. apply (decode_one_piece token token). now apply split_sepfree.
  - intros a b Ha Hb [-> | [rest ->]].
    + apply (decode_pieces _ a b []).
      change (a ++ "/" ++ b)%string with (a ++ String separator b)%string.
      now rewrite (split_append _ _ Ha), (split_sepfree _ Hb).
    + destruct (split_cases rest) as [[_ Hr] | (r1 & r2 & _ & _ & Hr)].
      * apply (decode_pieces _ a b [rest]).
        change (a ++ "/" ++ b ++ "/" ++ rest)%string
          with (a ++ String separator (b ++ String separator rest))%string.
        now rewrite (split_append _ _ Ha), (split_append _ _ Hb), Hr.
      * apply (decode_pieces _ a b (r1 :: JS.split separator r2)).
        change (a ++ "/" ++ b ++ "/" ++ rest)%string
          with (a ++ String separator (b ++ String separator rest))%string.
        now rewrite (split_append _ _ Ha), (split_append _ _ Hb), Hr.
  - destruct (split_cases token) as [[H _] | (a & r & Ha & -> & _)].
    + now left.
    + right. exists a.
      destruct (split_cases r) as [[Hr _] | (b & rest & Hb & -> & _)].
      * exists r. repeat split; auto.
      * exists b. repeat split; auto. right. now exists rest.
Qed.

Lemma decode_behaviour_witness :
  decode "s1/v1/extra"
  = Some {| to_trackName := "v1"; to_sessionId := "s1"; to_location := remote |}.
Proof.
  exact (proj1 (proj2 (proj2 (decode_behaviour "s1/v1/extra")))
           "s1" "v1" eq_refl eq_refl
           (or_intror (ex_intro _ "extra" eq_refl))).
Defined.

(** C7, as stated, fails at the pair of an empty session id and the track
    name ["v1"]: the template literal completes normally with the token
    ["/v1"]. *)
Lemma encode_failure_counterexample :
  invalid_ref "" "v1" = true /\
  encode_completion "" "v1" = Normal "/v1" /\
  ~ (forall sessionId trackName,
        invalid_ref sessionId trackName = true ->
        encode_completion sessionId trackName = Abrupt InvalidTrackRef).
Proof.
  split; [reflexivity | split; [reflexivity |]].
  intros H. specialize (H "" "v1" eq_refl). discriminate H.
Qed.

(** C7, amended. Writing a token checks nothing and never fails: for
    every pair it produces [sessionId + "/" + trackName].  When either
    part is empty or contains the separator, the token it produces does
    not parse back to the pair. *)
Theorem encode_never_fails (sessionId trackName : string) :
  encode_completion sessionId trackName
  = Normal (sessionId ++ "/" ++ trackName)%string /\
  (invalid_ref sessionId trackName = true ->
   decode (encode sessionId trackName)
   <> Some {| to_trackName := trackName; to_sessionId := sessionId;
              to_location := remote |}).
Proof.
  split; [reflexivity |].
  intros Hinv Hdec. apply decode_Some_inv in Hdec. simpl in Hdec.
  destruct Hdec as (A & B & C & D).
  unfold invalid_ref in Hinv. rewrite A, B, C, D in Hinv. discriminate.
Qed.

Lemma encode_never_fails_witness :
  decode (encode "s1" "cam/1")
  <> Some {| to_trackName := "cam/1"; to_sessionId := "s1";
             to_location := remote |}.
Proof.
  exact (proj2 (encode_never_fails "s1" "cam/1") eq_refl).
Defined.

(* ===================================================================== *)
(** * Proofs: the technician's feeds                                      *)
(* ===================================================================== *)

Section FeedFacts.

(** The loop over the cameras appends, to what [feeds] holds already,
    one virtual user per camera that passes the test. *)
Lemma forEach_pushCamera (user : User) (cams : list Camera) :
  forall (start : nat) (feeds : list User),
    JS.forEach (pushCamera user) cams start feeds
    = feeds ++ map (fun ic => cameraFeed user (fst ic) (snd ic))
                   (filter active (indexedFrom start cams)).
Proof.
  induction cams as [|c cams IH]; intros start feeds; simpl.
  - now rewrite app_nil_r.
  - rewrite IH. unfold pushCamera, active, JS.push, indexedFrom. simpl.
    destruct (JS.truthy (trackName c) && enabled c); simpl.
    + now rewrite <- app_assoc.
    + reflexivity.
Qed.

Lemma userFeeds_eq (user : User) :
  userFeeds user = cameraFeeds user ++ screenshareFeeds user.
Proof.
  unfold userFeeds, cameraFeeds, screenshareFeeds, JS.push, indexed.
  destruct (cameras (tracks user)) as [cams|].
  - destruct cams as [|c cams].
    + simpl. destruct (JS.truthy (screenshare (tracks user))); reflexivity.
    + change (0 <? length (c :: cams))%nat with true. cbv iota.
      rewrite forEach_pushCamera. simpl app at 1.
      destruct (JS.truthy (screenshare (tracks user)));
        [reflexivity | now rewrite app_nil_r].
  - simpl. destruct (JS.truthy (screenshare (tracks user))); reflexivity.
Qed.

(** The value of [flatMap] does not depend on the console it starts
    with: the callback only ever appends to it. *)
Lemma flatMap_value (users : list User) :
  forall console : Console,
    fst (runState (hospitalFeeds users) console) = flat_map userFeeds users.
Proof.
  induction users as [|u users IH]; intros console.
  - reflexivity.
  - unfold hospitalFeeds in *. simpl.
    specialize (IH (console ++ [LogCreatedFeeds (name u) (length (userFeeds u))])).
    destruct (runState (flatMap hospitalFeeds_callback users) _) as [zs c'].
    simpl in *. now rewrite IH.
Qed.

Lemma feedsOn_eq (console : Console) (otherUsers : list User) :
  feedsOn console otherUsers = flat_map userFeeds (hospitalUsers otherUsers).
Proof.
  unfold feedsOn, JoinedTechnicianStation. simpl.
  apply flatMap_value.
Qed.

Lemma technicianFeeds_eq (otherUsers : list User) :
  technicianFeeds otherUsers = flat_map userFeeds (hospitalUsers otherUsers).
Proof. apply feedsOn_eq. Qed.

Lemma technicianFeeds_app (us vs : list User) :
  technicianFeeds (us ++ vs) = technicianFeeds us ++ technicianFeeds vs.
Proof.
  rewrite !technicianFeeds_eq. unfold hospitalUsers.
  now rewrite filter_app, flat_map_app.
Qed.

Lemma technicianFeeds_cons (u : User) (vs : list User) :
  technicianFeeds (u :: vs)
  = (if role_is hospital u then userFeeds u else []) ++ technicianFeeds vs.
Proof.
  rewrite !technicianFeeds_eq. unfold hospitalUsers. simpl.
  destruct (role_is hospital u); reflexivity.
Qed.

Lemma role_is_hospital (u : User) :
  role u = Some hospital -> role_is hospital u = true.
Proof. unfold role_is. now intros ->. Qed.

Lemma role_is_not_hospital (u : User) :
  role u <> Some hospital -> role_is hospital u = false.
Proof.
  unfold role_is. destruct (role u) as [[]|]; intros H;
    try reflexivity. now elim H.
Qed.

End FeedFacts.

Section FeedShape.

Lemma userFeeds_not_expandable (user : User) :
  Forall not_expandable (userFeeds user).
Proof.
  rewrite userFeeds_eq. apply Forall_app. split.
  - unfold cameraFeeds. destruct (cameras (tracks user)); [|constructor].
    apply Forall_forall. intros f Hf. apply in_map_iff in Hf.
    destruct Hf as (ic & <- & _). now split.
  - unfold screenshareFeeds.
    destruct (JS.truthy (screenshare (tracks user))); repeat constructor.
Qed.

Lemma not_expandable_userFeeds (feed : User) :
  not_expandable feed -> userFeeds feed = [].
Proof.
  intros [Hc Hs]. unfold userFeeds. now rewrite Hc, Hs.
Qed.

Lemma flat_map_Forall {A B : Type} (P : B -> Prop) (f : A -> list B)
    (xs : list A) :
  (forall x, Forall P (f x)) -> Forall P (flat_map f xs).
Proof.
  intros H. induction xs as [|x xs IH]; simpl.
  - constructor.
  - apply Forall_app. auto.
Qed.

Lemma flat_map_nil {A B : Type} (f : A -> list B) (xs : list A) :
  Forall (fun x => f x = []) xs -> flat_map f xs = [].
Proof.
  induction 1 as [|x xs Hx _ IH]; simpl; [reflexivity|].
  now rewrite Hx, IH.
Qed.

End FeedShape.

Example h1_feed_names :
  map name (technicianFeeds [h1]) = ["Hospital A - Camera 1"; "Hospital A - Screen"].
Proof. reflexivity. Qed.

Example h1_feed_videos :
  map (fun feed => video (tracks feed)) (technicianFeeds [h1])
  = [Some "s1/v1"; Some "s1/scr"].
Proof. reflexivity. Qed.

Example h1_console :
  snd (runState (JoinedTechnicianStation [drSmith; h1]) [])
  = [LogHospitalUsers [("h1", "Hospital A", Some hospital, 2, cameras (tracks h1))];
     LogCreatedFeeds "Hospital A" 2].
Proof. reflexivity. Qed.

(** From the push of a camera track to the object pulled by a viewer. *)
Example pushed_camera_reaches_viewer :
  let info := onPushedTrack "d1" true (Some ("s1", "v1")) [] in
  let station :=
    {| id := "h1"; name := "Hospital A"; transceiverSessionId := Some "s1";
       raisedHand := false; speaking := false; joined := true;
       role := Some hospital;
       tracks :=
         {| audio := None; audioEnabled := Some true; audioUnavailable := false;
            video := None; videoEnabled := Some false;
            screenshare := None; screenShareEnabled := Some false;
            cameras := Some (serializedCameras info) |} |} in
  map (fun feed => trackObject (video (tracks feed))) (technicianFeeds [station])
  = [Some {| to_trackName := "v1"; to_sessionId := "s1"; to_location := remote |}].
Proof. reflexivity. Qed.

(** C2. Multi-camera explosion: for a user of role [hospital] whose
    [cameras] array is there, wherever the user stands among the other
    users, the technician's feeds hold, at the user's place, one virtual
    user per camera whose track identifier is present (a non-empty
    string) and whose [enabled] flag is true, and none for the other
    cameras; its id is [id + "-camera-" + deviceId] and its video the
    camera's track.  If the screen-share track is present, exactly one
    more virtual user follows, with id [id + "-screenshare"] and
    [videoEnabled] equal to the user's [screenShareEnabled]; otherwise
    none does.  User "h1", with camera "d1" enabled, camera "d2" disabled
    and a screen share, yields the ids "h1-camera-d1" and
    "h1-screenshare" and no other. *)
Theorem multi_camera_explosion
    (before after : list User) (user : User) (cams : list Camera) :
  role user = Some hospital ->
  cameras (tracks user) = Some cams ->
  technicianFeeds (before ++ user :: after)
  = technicianFeeds before
    ++ map (fun ic => cameraFeed user (fst ic) (snd ic))
           (filter (fun ic => JS.truthy (trackName (snd ic)) && enabled (snd ic))
                   (indexed cams))
    ++ (if JS.truthy (screenshare (tracks user))
        then [screenshareFeed user] else [])
    ++ technicianFeeds after
  /\ (forall index camera,
        id (cameraFeed user index camera)
        = (id user ++ "-camera-" ++ deviceId camera)%string /\
        video (tracks (cameraFeed user index camera)) = trackName camera /\
        videoEnabled (tracks (cameraFeed user index camera))
        = Some (enabled camera))
  /\ id (screenshareFeed user) = (id user ++ "-screenshare")%string
  /\ video (tracks (screenshareFeed user)) = screenshare (tracks user)
  /\ videoEnabled (tracks (screenshareFeed user))
     = screenShareEnabled (tracks user)
  /\ map id (technicianFeeds [h1]) = ["h1-camera-d1"; "h1-screenshare"].
Proof.
  intros Hrole Hcams. repeat split.
  rewrite technicianFeeds_app, technicianFeeds_cons.
  rewrite (role_is_hospital _ Hrole), userFeeds_eq.
  unfold cameraFeeds, screenshareFeeds. rewrite Hcams.
  now rewrite <- !app_assoc.
Qed.

Lemma multi_camera_explosion_witness :
  technicianFeeds ([] ++ h1 :: [drSmith])
  = technicianFeeds []
    ++ [cameraFeed h1 0 {| deviceId := "d1"; trackName := Some "s1/v1";
                           enabled := true |}]
    ++ [screenshareFeed h1]
    ++ technicianFeeds [drSmith].
Proof.
  exact (proj1 (multi_camera_explosion [] [drSmith] h1 _ eq_refl eq_refl)).
Defined.

(** C4. Determinism: the feeds depend on the users given and on nothing
    else.  Two renders over the same users return the same array, with
    the same ids in the same order, whatever the console holds when each
    starts; in particular a second render that follows a first one, on
    the console the first one left, returns what the first returned. *)
Theorem reconciliation_deterministic
    (otherUsers : list User) (console1 console2 : Console) :
  feedsOn console1 otherUsers = feedsOn console2 otherUsers /\
  map id (feedsOn console1 otherUsers) = map id (feedsOn console2 otherUsers) /\
  (let first := runState (JoinedTechnicianStation otherUsers) console1 in
   let second := runState (JoinedTechnicianStation otherUsers) (snd first) in
   fst second = fst first).
Proof.
  assert (H : forall c c', feedsOn c otherUsers = feedsOn c' otherUsers).
  { intros c c'. now rewrite !feedsOn_eq. }
  split; [apply H | split; [now rewrite (H console1 console2) |]].
  cbv zeta. apply (H _ console1).
Qed.

(** C9. Feeds cannot be expanded again: every virtual user the technician
    station builds has [tracks.cameras] and [tracks.screenshare]
    undefined, so building feeds from the feeds themselves gives the
    empty array. *)
Theorem emitted_feeds_expand_no_further
    (console console' : Console) (otherUsers : list User) :
  Forall (fun feed => cameras (tracks feed) = None /\
                      screenshare (tracks feed) = None)
         (feedsOn console otherUsers) /\
  feedsOn console' (feedsOn console otherUsers) = [].
Proof.
  assert (H : Forall not_expandable (feedsOn console otherUsers)).
  { rewrite feedsOn_eq. apply flat_map_Forall, userFeeds_not_expandable. }
  split; [exact H |].
  rewrite (feedsOn_eq console'). apply flat_map_nil.
  unfold hospitalUsers. apply Forall_forall. intros f Hf.
  apply filter_In in Hf as [Hf _].
  apply not_expandable_userFeeds. revert f Hf. now apply Forall_forall.
Qed.

(** C6, as stated, fails for the technician "Dr. Smith", whose role is
    not [hospital] and whose [video] track is present: the technician
    station builds no feed for that user. *)
Lemma singular_video_counterexample :
  role drSmith <> Some hospital /\
  JS.truthy (video (tracks drSmith)) = true /\
  technicianFeeds [drSmith] = [] /\
  ~ (forall (otherUsers : list User) (user : User),
        In user otherUsers ->
        role user <> Some hospital ->
        JS.truthy (video (tracks user)) = true ->
        exists feed, In feed (technicianFeeds otherUsers) /\ id feed = id user).
Proof.
  split; [discriminate | split; [reflexivity | split; [reflexivity |]]].
  intros H.
  destruct (H [drSmith] drSmith (or_introl eq_refl)) as (feed & Hin & _).
  - discriminate.
  - reflexivity.
  - exact Hin.
Qed.

(** C6, amended. The technician station keeps the users of role
    [hospital] only: a user of any other role, or of none, contributes no
    feed, with or without a [video] track, and taking the user out of the
    input leaves the feeds as they are.  Users seen under their own id
    are those of the hospital station, which lists every user of role
    [technician] unchanged. *)
Theorem non_hospital_users_yield_no_feed
    (before after : list User) (user : User) :
  role user <> Some hospital ->
  technicianFeeds [user] = [] /\
  technicianFeeds (before ++ user :: after) = technicianFeeds (before ++ after) /\
  (role user = Some technician ->
   technicianUsers (before ++ user :: after)
   = technicianUsers before ++ user :: technicianUsers after).
Proof.
  intros Hrole. pose proof (role_is_not_hospital _ Hrole) as Hr.
  repeat split.
  - rewrite technicianFeeds_cons, Hr. reflexivity.
  - rewrite !technicianFeeds_app, technicianFeeds_cons, Hr. reflexivity.
  - intros Ht. unfold technicianUsers. rewrite filter_app. simpl.
    unfold role_is at 2. rewrite Ht. reflexivity.
Qed.

Lemma non_hospital_users_yield_no_feed_witness :
  technicianFeeds ([h1] ++ drSmith :: []) = technicianFeeds ([h1] ++ []) /\
  technicianUsers ([h1] ++ drSmith :: [])
  = technicianUsers [h1] ++ drSmith :: technicianUsers [].
Proof.
  assert (Hrole : role drSmith <> Some hospital) by discriminate.
  split.
  - exact (proj1 (proj2 (non_hospital_users_yield_no_feed [h1] [] drSmith Hrole))).
  - exact (proj2 (proj2 (non_hospital_users_yield_no_feed [h1] [] drSmith Hrole))
             eq_refl).
Defined.

(* ===================================================================== *)
(** * Proofs: the order of the feeds                                      *)
(* ===================================================================== *)

Section SortedLists.

Context {A : Type} (R : A -> A -> Prop).

Lemma sorted_app (xs ys : list A) :
  StronglySorted R xs -> StronglySorted R ys ->
  (forall x y, In x xs -> In y ys -> R x y) ->
  StronglySorted R (xs ++ ys).
Proof.
  induction 1 as [|x xs Hxs IH Hx]; intros Hys Hcross; simpl.
  - exact Hys.
  - constructor.
    + apply IH; [exact Hys | intros; apply Hcross; simpl; auto].
    + apply Forall_app. split; [exact Hx |].
      apply Forall_forall. intros y Hy. apply Hcross; simpl; auto.
Qed.

Lemma sorted_filter (keep : A -> bool) (xs : list A) :
  StronglySorted R xs -> StronglySorted R (filter keep xs).
Proof.
  induction 1 as [|x xs Hxs IH Hx]; simpl; [constructor|].
  destruct (keep x); [|exact IH].
  constructor; [exact IH |].
  apply Forall_forall. intros y Hy. apply filter_In in Hy as [Hy _].
  revert y Hy. now apply Forall_forall.
Qed.

Lemma sorted_map {B : Type} (R' : B -> B -> Prop) (f : A -> B) (xs : list A) :
  (forall x y, R x y -> R' (f x) (f y)) ->
  StronglySorted R xs -> StronglySorted R' (map f xs).
Proof.
  intros Hf. induction 1 as [|x xs Hxs IH Hx]; simpl; constructor.
  - exact IH.
  - apply Forall_forall. intros b Hb. apply in_map_iff in Hb as (y & <- & Hy).
    apply Hf. revert y Hy. now apply Forall_forall.
Qed.

Lemma Forall2_map_same {B C : Type} (Q : B -> C -> Prop)
    (f : A -> B) (g : A -> C) (xs : list A) :
  (forall x, In x xs -> Q (f x) (g x)) -> Forall2 Q (map f xs) (map g xs).
Proof.
  induction xs as [|x xs IH]; intros H; simpl; constructor.
  - apply H. now left.
  - apply IH. intros y Hy. apply H. now right.
Qed.

End SortedLists.

Section FeedOrder.

Lemma indexedFrom_In (cams : list Camera) :
  forall start i c,
    In (i, c) (indexedFrom start cams) ->
    start <= i /\ nth_error cams (i - start) = Some c.
Proof.
  unfold indexedFrom.
  induction cams as [|c0 cams IH]; intros start i c; simpl; [tauto|].
  intros [H | H].
  - inversion H; subst. split; [lia |]. now rewrite Nat.sub_diag.
  - apply IH in H as [Hle Hnth]. split; [lia |].
    replace (i - start) with (S (i - S start)) by lia. exact Hnth.
Qed.

Lemma indexedFrom_sorted (cams : list Camera) :
  forall start,
    StronglySorted (fun a b : nat * Camera => fst a < fst b)
                   (indexedFrom start cams).
Proof.
  induction cams as [|c0 cams IH]; intros start.
  - constructor.
  - change (indexedFrom start (c0 :: cams))
      with ((start, c0) :: indexedFrom (S start) cams).
    constructor; [apply IH |].
    apply Forall_forall. intros [i c] H.
    apply indexedFrom_In in H as [H _]. simpl. lia.
Qed.

Lemma userOrigins_fst (p : nat) (user : User) (o : Origin) :
  In o (userOrigins p user) -> fst o = p.
Proof.
  unfold userOrigins. intros H. apply in_app_or in H as [H | H].
  - destruct (cameras (tracks user)); [|contradiction].
    apply in_map_iff in H as (ic & <- & _). reflexivity.
  - destruct (JS.truthy (screenshare (tracks user))); [|contradiction].
    destruct H as [<- | []]. reflexivity.
Qed.

Lemma userOrigins_sorted (p : nat) (user : User) :
  StronglySorted origin_lt (userOrigins p user).
Proof.
  unfold userOrigins. apply sorted_app.
  - destruct (cameras (tracks user)) as [cams|]; [|constructor].
    apply (sorted_map (fun a b : nat * Camera => fst a < fst b)).
    + intros x y Hxy. right. simpl. auto.
    + apply sorted_filter, indexedFrom_sorted.
  - destruct (JS.truthy (screenshare (tracks user))); repeat constructor.
  - intros x y Hx Hy.
    destruct (cameras (tracks user)) as [cams|]; [|contradiction].
    apply in_map_iff in Hx as (ic & <- & _).
    destruct (JS.truthy (screenshare (tracks user))); [|contradiction].
    destruct Hy as [<- | []]. right. simpl. auto.
Qed.

Lemma originsFrom_fst (users : list User) :
  forall p o, In o (originsFrom p users) -> p <= fst o.
Proof.
  induction users as [|u users IH]; intros p o; simpl; [tauto|].
  intros H. apply in_app_or in H as [H | H].
  - destruct (role_is hospital u); [|contradiction].
    apply userOrigins_fst in H. lia.
  - apply IH in H. lia.
Qed.

Lemma originsFrom_sorted (users : list User) :
  forall p, StronglySorted origin_lt (originsFrom p users).
Proof.
  induction users as [|u users IH]; intros p; simpl; [constructor|].
  apply sorted_app.
  - destruct (role_is hospital u); [apply userOrigins_sorted | constructor].
  - apply IH.
  - intros x y Hx Hy. left.
    destruct (role_is hospital u); [|contradiction].
    apply userOrigins_fst in Hx. apply originsFrom_fst in Hy. lia.
Qed.

Lemma userFeeds_emitted (all : list User) (p : nat) (user : User) :
  nth_error all p = Some user ->
  Forall2 (emitted_from all) (userOrigins p user) (userFeeds user).
Proof.
  intros Hp. rewrite userFeeds_eq.
  unfold userOrigins, cameraFeeds, screenshareFeeds. apply Forall2_app.
  - destruct (cameras (tracks user)) as [cams|] eqn:Hcams; [|constructor].
    apply Forall2_map_same. intros [i c] H.
    apply filter_In in H as [H _].
    apply indexedFrom_In in H as [_ H]. rewrite Nat.sub_0_r in H.
    simpl. now apply emitted_camera with (cams := cams).
  - destruct (JS.truthy (screenshare (tracks user))); repeat constructor.
    exact Hp.
Qed.

Lemma technicianFeeds_emitted (rest : list User) :
  forall pre : list User,
    Forall2 (emitted_from (pre ++ rest))
            (originsFrom (length pre) rest) (technicianFeeds rest).
Proof.
  induction rest as [|u rest IH]; intros pre.
  - constructor.
  - rewrite technicianFeeds_cons. simpl. apply Forall2_app.
    + destruct (role_is hospital u); [|constructor].
      apply userFeeds_emitted.
      rewrite nth_error_app2, Nat.sub_diag by lia. reflexivity.
    + specialize (IH (pre ++ [u])).
      rewrite <- app_assoc, length_app, Nat.add_1_r in IH. exact IH.
Qed.

End FeedOrder.

(** C5. Output order: the feeds can be matched, one by one and in order,
    with a strictly increasing list of origins, an origin being the
    position of a user in the input and, for that user, the index of a
    camera or the screen share, cameras coming before the screen share.
    So feeds are grouped by user in input order, and within a user the
    camera feeds come in camera-array order and the screen share last. *)
Theorem feeds_follow_input_order (otherUsers : list User) :
  StronglySorted origin_lt (originsFrom 0 otherUsers) /\
  Forall2 (emitted_from otherUsers)
          (originsFrom 0 otherUsers) (technicianFeeds otherUsers).
Proof.
  split.
  - apply originsFrom_sorted.
  - exact (technicianFeeds_emitted otherUsers []).
Qed.

(* ===================================================================== *)
(** * Proofs: leaving the room                                            *)
(* ===================================================================== *)

Section Departure.

Lemma truthy_inv (v : option string) :
  JS.truthy v = true -> exists s, v = Some s /\ is_empty s = false.
Proof.
  destruct v as [[|c s]|]; simpl; try discriminate.
  intros _. now exists (String c s).
Qed.

Lemma send_runs (message : ClientMessage) (sent : WebSocket) :
  runState (send message) sent = (tt, sent ++ [message]).
Proof. reflexivity. Qed.

End Departure.

(** C10. Departure: when the hook is unmounted and both the id and the
    name of the identity are known (present and non-empty), it sends
    exactly one more message, a [userUpdate] for that id and name whose
    user has [joined] false and a [tracks] object that holds the
    [audioUnavailable] flag and nothing else, so no track identifier; it
    does not send [userLeft]. *)
Theorem departure_sends_update (cfg : Config) (before : WebSocket) :
  JS.truthy (idOf cfg) = true ->
  JS.truthy (nameOf cfg) = true ->
  exists user : User,
    sentOnUnmount cfg before = before ++ [userUpdate user] /\
    idOf cfg = Some (id user) /\
    nameOf cfg = Some (name user) /\
    joined user = false /\
    onlyAudioUnavailable (tracks user) /\
    audioUnavailable (tracks user) = audioUnavailableOf cfg /\
    ~ In userLeft [userUpdate user].
Proof.
  intros Hid Hname. unfold sentOnUnmount, onUnmount.
  destruct (truthy_inv _ Hid) as (i & Ei & _).
  destruct (truthy_inv _ Hname) as (n & En & _).
  rewrite Hid, Hname, Ei, En. cbn [andb].
  exists (leavingUser cfg i n). rewrite send_runs.
  repeat split. intros [H | []]. discriminate H.
Qed.

Lemma departure_sends_update_witness :
  exists user : User,
    sentOnUnmount
      {| cfg_userMedia := mkUserMedia true true false None;
         cfg_identity := Some drSmith;
         cfg_pushedTracks :=
           mkPushedTracks (Some "session-def/audio-1")
                          (Some "session-def/video-1") None;
         cfg_raisedHand := false;
         cfg_speaking := true;
         cfg_role := Some technician;
         cfg_sessionId := Some "session-def" |}
      [heartbeat]
    = [heartbeat; userUpdate user] /\
    joined user = false /\ onlyAudioUnavailable (tracks user).
Proof.
  destruct (departure_sends_update
              {| cfg_userMedia := mkUserMedia true true false None;
                 cfg_identity := Some drSmith;
                 cfg_pushedTracks :=
                   mkPushedTracks (Some "session-def/audio-1")
                                  (Some "session-def/video-1") None;
                 cfg_raisedHand := false;
                 cfg_speaking := true;
                 cfg_role := Some technician;
                 cfg_sessionId := Some "session-def" |}
              [heartbeat] eq_refl eq_refl)
    as (user & Hsent & _ & _ & Hjoined & Htracks & _).
  exists user. split; [exact Hsent | split; assumption].
Defined.

(* ===================================================================== *)
(** * Proofs: the room coordinator                                        *)
(* ===================================================================== *)

Section IdentityBinding.

Import Coordinator.

(** An update under the bound id is taken and broadcast. *)
Example update_under_own_id :
  applyUpdate 7 (plainUser "a") roomOfA
  = ({| roomState := roomState roomOfA;
        sessions := sessions roomOfA;
        queued := [(7, roomStateMessage (roomState roomOfA))] |},
     None).
Proof. reflexivity. Qed.

(** The first update of a session binds it and adds the participant. *)
Example first_update_binds :
  let fresh :=
    {| roomState := roomState roomOfA;
       sessions := sessions roomOfA ++ [(8, {| ownedId := None; lastSeen := 3 |})];
       queued := [] |} in
  let after := fst (applyUpdate 8 (plainUser "b") fresh) in
  findSession 8 (sessions after) = Some {| ownedId := Some "b"; lastSeen := 3 |} /\
  map id (participants (roomState after)) = ["a"; "b"] /\
  map fst (queued after) = [7; 8].
Proof. repeat split. Qed.

(** C8. Identity exclusivity: when a session is bound to a participant
    id, an update whose participant has another id is refused with
    [IdentityConflict]; the session keeps its binding, the room state
    after the update is the room state before it, and the only message
    queued is the error notice for that session. *)
Theorem identity_conflict_rejected
    (r : Room) (key : SessionKey) (s : Session) (bound : string)
    (participant : User) :
  findSession key (sessions r) = Some s ->
  ownedId s = Some bound ->
  id participant <> bound ->
  snd (applyUpdate key participant r) = Some IdentityConflict /\
  findSession key (sessions (fst (applyUpdate key participant r))) = Some s /\
  sessions (fst (applyUpdate key participant r)) = sessions r /\
  roomState (fst (applyUpdate key participant r)) = roomState r /\
  queued (fst (applyUpdate key participant r))
  = queued r ++ [(key, errorMessage IdentityConflict)].
Proof.
  intros Hs Hbound Hdiff. unfold applyUpdate. rewrite Hs, Hbound.
  assert (E : String.eqb bound (id participant) = false).
  { apply String.eqb_neq. congruence. }
  rewrite E. simpl. auto.
Qed.

Lemma identity_conflict_rejected_witness :
  snd (applyUpdate 7 (plainUser "b") roomOfA) = Some IdentityConflict /\
  roomState (fst (applyUpdate 7 (plainUser "b") roomOfA)) = roomState roomOfA.
Proof.
  assert (Hdiff : id (plainUser "b") <> "a") by discriminate.
  pose proof (identity_conflict_rejected roomOfA 7
                {| ownedId := Some "a"; lastSeen := 0 |} "a" (plainUser "b")
                eq_refl eq_refl Hdiff) as (Hres & _ & _ & Hstate & _).
  split; assumption.
Defined.

End IdentityBinding.

(* ===================================================================== *)
(** * Further properties: track identifiers                               *)
(* ===================================================================== *)

Section TokenFacts.

Lemma string_app_assoc (a b c : string) :
  ((a ++ b) ++ c)%string = (a ++ (b ++ c))%string.
Proof.
  induction a as [|x a IH]; simpl; [reflexivity | now rewrite IH].
Qed.

Lemma count_separators_app (a b : string) :
  count_separators (a ++ b) = count_separators a + count_separators b.
Proof.
  induction a as [|x a IH]; simpl; [reflexivity | rewrite IH; lia].
Qed.

Lemma count_separators_sepfree (a : string) :
  contains_separator a = false -> count_separators a = 0.
Proof.
  induction a as [|x a IH]; simpl; [reflexivity|].
  intros H. apply orb_false_iff in H as [E H]. rewrite E. now apply IH.
Qed.

(** The two shapes of a token the hook accepts. *)
Lemma decode_shape (token : string) (o : TrackObject) :
  decode token = Some o ->
  is_empty (to_sessionId o) = false /\
  is_empty (to_trackName o) = false /\
  contains_separator (to_trackName o) = false /\
  to_location o = remote /\
  (token = encode (to_sessionId o) (to_trackName o) \/
   exists rest,
     token = (encode (to_sessionId o) (to_trackName o) ++ "/" ++ rest)%string).
Proof.
  intros H.
  destruct (split_cases token) as [[_ Hs] | (a & r & Ha & -> & Hs)].
  - rewrite (decode_one_piece _ _ Hs) in H. discriminate.
  - destruct (split_cases r) as [[Hr Hsr] | (b & rest & Hb & -> & Hsr)];
      rewrite Hsr in Hs; rewrite (decode_pieces _ _ _ _ Hs) in H;
      destruct (is_empty a) eqn:Ea; try discriminate;
      [destruct (is_empty r) eqn:Eb | destruct (is_empty b) eqn:Eb];
      try discriminate; simpl in H; inversion H; subst; simpl;
      repeat split; auto.
    right. exists rest. unfold encode. now rewrite string_app_assoc.
Qed.

Lemma decode_encode_valid (s t : string) :
  is_empty s = false -> is_empty t = false ->
  contains_separator s = false -> contains_separator t = false ->
  decode (encode s t) = Some (mkTrackObject t s remote).
Proof.
  intros Hs Ht Fs Ft.
  rewrite (decode_pieces (encode s t) s t []).
  - now rewrite Hs, Ht.
  - unfold encode. now rewrite (split_append _ _ Fs), (split_sepfree _ Ft).
Qed.

End TokenFacts.

(** X1. Tokens tell tracks apart: two pairs whose session ids hold no
    separator and that are written as the same token are the same pair. *)
Theorem encode_injective (s t s' t' : string) :
  contains_separator s = false ->
  contains_separator s' = false ->
  encode s t = encode s' t' ->
  s = s' /\ t = t'.
Proof.
  revert s'. induction s as [|c s IH]; intros [|c' s'] Hs Hs' H;
    simpl in *.
  - inversion H. auto.
  - inversion H; subst c'. discriminate Hs'.
  - inversion H; subst c. discriminate Hs.
  - apply orb_false_iff in Hs as [_ Hs]. apply orb_false_iff in Hs' as [_ Hs'].
    inversion H; subst c'. destruct (IH s' Hs Hs' H2) as [-> ->]. auto.
Qed.

Lemma encode_injective_witness :
  "s1" = "s1" /\ "v1/x" = "v1/x".
Proof.
  exact (encode_injective "s1" "v1/x" "s1" "v1/x" eq_refl eq_refl eq_refl).
Defined.

(** X2. What the hook accepts: a token yields an object exactly when it
    starts with a non-empty session id free of separators, a separator
    and a non-empty track name free of separators, and either ends
    there or goes on with another separator; the object is made of that
    session id and that track name, at the remote location. *)
Theorem decode_accepts_iff (token : string) (o : TrackObject) :
  decode token = Some o <->
  is_empty (to_sessionId o) = false /\
  is_empty (to_trackName o) = false /\
  contains_separator (to_sessionId o) = false /\
  contains_separator (to_trackName o) = false /\
  to_location o = remote /\
  (token = encode (to_sessionId o) (to_trackName o) \/
   exists rest,
     token = (encode (to_sessionId o) (to_trackName o) ++ "/" ++ rest)%string).
Proof.
  split.
  - intros H. destruct (decode_shape _ _ H) as (A & B & C & D & E).
    destruct (decode_Some_inv _ _ H) as (_ & _ & F & _). auto 10.
  - destruct o as [t s l]. simpl. intros (A & B & C & D & -> & [-> | [rest ->]]).
    + now apply decode_encode_valid.
    + destruct (split_cases rest) as [[_ Hr] | (r1 & r2 & _ & _ & Hr)].
      * rewrite (decode_pieces _ s t [rest]); [now rewrite A, B |].
        unfold encode. rewrite string_app_assoc. simpl.
        change (String "/" rest) with (String separator rest).
        now rewrite (split_append _ _ C), (split_append _ _ D), Hr.
      * rewrite (decode_pieces _ s t (r1 :: JS.split separator r2));
          [now rewrite A, B |].
        unfold encode. rewrite string_app_assoc. simpl.
        change (String "/" rest) with (String separator rest).
        now rewrite (split_append _ _ C), (split_append _ _ D), Hr.
Qed.

(** X3. Reading then writing: when a token with exactly one separator
    yields an object, writing the session id and the track name of that
    object gives the token back. *)
Theorem encode_decode_roundtrip (token : string) (o : TrackObject) :
  count_separators token = 1 ->
  decode token = Some o ->
  encode (to_sessionId o) (to_trackName o) = token.
Proof.
  intros Hcount H.
  destruct (decode_shape _ _ H) as (_ & _ & _ & _ & [-> | [rest ->]]);
    [reflexivity |].
  exfalso. unfold encode in Hcount.
  rewrite !count_separators_app in Hcount. simpl in Hcount. lia.
Qed.

Lemma encode_decode_roundtrip_witness :
  encode "session-abc" "video-1" = "session-abc/video-1".
Proof.
  exact (encode_decode_roundtrip "session-abc/video-1"
           (mkTrackObject "video-1" "session-abc" remote) eq_refl eq_refl).
Defined.

Lemma decode_accepts_iff_witness :
  decode "s1/v1/x" = Some (mkTrackObject "v1" "s1" remote).
Proof.
  exact (proj2 (decode_accepts_iff "s1/v1/x" (mkTrackObject "v1" "s1" remote))
           (conj eq_refl (conj eq_refl (conj eq_refl (conj eq_refl
              (conj eq_refl (or_intror (ex_intro _ "x" eq_refl)))))))).
Defined.

(* ===================================================================== *)
(** * Further properties: the hospital station's camera list              *)
(* ===================================================================== *)

Section CameraListFacts.

Lemma NoDup_map_filter {A B : Type} (f : A -> B) (keep : A -> bool)
    (xs : list A) :
  NoDup (map f xs) -> NoDup (map f (filter keep xs)).
Proof.
  induction xs as [|x xs IH]; simpl; intros H; [constructor|].
  inversion H as [|? ? Hx Hxs]; subst.
  destruct (keep x); simpl; [constructor |]; auto.
  intros Hin. apply Hx. apply in_map_iff in Hin as (y & Hy & Hin).
  apply filter_In in Hin as [Hin _]. apply in_map_iff. eauto.
Qed.

Lemma NoDup_snoc {A : Type} (xs : list A) (x : A) :
  NoDup xs -> ~ In x xs -> NoDup (xs ++ [x]).
Proof.
  induction 1 as [|y ys Hy Hys IH]; simpl; intros Hx.
  - repeat constructor. tauto.
  - constructor.
    + intros Hin. apply in_app_or in Hin as [Hin | [<- | []]]; tauto.
    + apply IH. tauto.
Qed.

Lemma filter_twice {A : Type} (keep : A -> bool) (xs : list A) :
  filter keep (filter keep xs) = filter keep xs.
Proof.
  induction xs as [|x xs IH]; simpl; [reflexivity|].
  destruct (keep x) eqn:E; simpl; [rewrite E, IH | rewrite IH]; reflexivity.
Qed.

Lemma filter_opposite {A : Type} (keep : A -> bool) (xs : list A) :
  filter keep (filter (fun x => negb (keep x)) xs) = [].
Proof.
  induction xs as [|x xs IH]; simpl; [reflexivity|].
  destruct (keep x) eqn:E; simpl; [| rewrite E]; exact IH.
Qed.

Lemma others_deviceIds (d : string) (prev : list Camera) :
  ~ In d (map deviceId
            (filter (fun t => negb (String.eqb (deviceId t) d)) prev)).
Proof.
  intros H. apply in_map_iff in H as (t & <- & Ht).
  apply filter_In in Ht as [_ Ht]. now rewrite String.eqb_refl in Ht.
Qed.

End CameraListFacts.

(** X4. One entry per camera: after a push report for a camera, the list
    holds exactly one entry for that camera when a track is reported,
    with the token of the track and the camera's [enabled] flag, and
    none when the track is reported lost; the entries of the other
    cameras are the ones it held, in the same order. *)
Theorem onPushedTrack_entries
    (d : string) (e : bool) (pushedTrack : option (string * string))
    (prev : list Camera) :
  filter (fun t => String.eqb (deviceId t) d) (onPushedTrack d e pushedTrack prev)
  = match pushedTrack with
    | Some (s, t) =>
        [ {| deviceId := d; trackName := Some (encode s t); enabled := e |} ]
    | None => []
    end
  /\
  filter (fun t => negb (String.eqb (deviceId t) d))
         (onPushedTrack d e pushedTrack prev)
  = filter (fun t => negb (String.eqb (deviceId t) d)) prev.
Proof.
  unfold onPushedTrack. destruct pushedTrack as [[s t]|].
  - rewrite !filter_app, filter_twice.
    rewrite (filter_opposite (fun t => String.eqb (deviceId t) d)).
    simpl. rewrite String.eqb_refl. simpl. now rewrite app_nil_r.
  - rewrite filter_twice.
    now rewrite (filter_opposite (fun t => String.eqb (deviceId t) d)).
Qed.

(** X5. Device ids stay distinct: when no two entries of the list share
    a device id, none do after a push report. *)
Theorem onPushedTrack_NoDup
    (d : string) (e : bool) (pushedTrack : option (string * string))
    (prev : list Camera) :
  NoDup (map deviceId prev) ->
  NoDup (map deviceId (onPushedTrack d e pushedTrack prev)).
Proof.
  intros H. unfold onPushedTrack. destruct pushedTrack as [[s t]|].
  - rewrite map_app. simpl. apply NoDup_snoc.
    + now apply NoDup_map_filter.
    + apply others_deviceIds.
  - now apply NoDup_map_filter.
Qed.

Lemma onPushedTrack_NoDup_witness :
  NoDup (map deviceId
           (onPushedTrack "d1" true (Some ("s1", "v9"))
              [ {| deviceId := "d1"; trackName := Some "s1/v1"; enabled := true |};
                {| deviceId := "d2"; trackName := Some "s1/v2"; enabled := false |} ])).
Proof.
  apply (onPushedTrack_NoDup "d1" true (Some ("s1", "v9"))).
  simpl. repeat constructor; simpl; intuition discriminate.
Defined.

(* ===================================================================== *)
(** * Further properties: from the hospital station to the technician     *)
(* ===================================================================== *)

Section StationToTechnician.

Import MultiCamera HospitalBroadcast.

Lemma truthy_orUndefined (v : option string) :
  JS.truthy (JS.orUndefined v) = JS.truthy v.
Proof. destruct v as [[|c s]|]; reflexivity. Qed.

Lemma orUndefined_truthy (v : option string) :
  JS.truthy v = true -> JS.orUndefined v = v.
Proof. unfold JS.orUndefined. now intros ->. Qed.

(** Cameras that pass the technician's test give the same virtual user
    before and after serialisation. *)
Lemma serialized_feeds_from (user : User) (cams : list Camera) :
  forall start,
    map (fun ic => cameraFeed user (fst ic) (snd ic))
        (filter active (indexedFrom start (serializedCameras cams)))
    = map (fun ic => cameraFeed user (fst ic) (snd ic))
          (filter active (indexedFrom start cams)).
Proof.
  induction cams as [|c cams IH]; intros start; [reflexivity|].
  change (indexedFrom start (serializedCameras (c :: cams)))
    with ((start, {| deviceId := deviceId c;
                     trackName := JS.orUndefined (trackName c);
                     enabled := enabled c |})
          :: indexedFrom (S start) (serializedCameras cams)).
  change (indexedFrom start (c :: cams))
    with ((start, c) :: indexedFrom (S start) cams).
  cbn [filter].
  assert (Ha : active (start, {| deviceId := deviceId c;
                                 trackName := JS.orUndefined (trackName c);
                                 enabled := enabled c |})
               = active (start, c)).
  { unfold active. simpl. now rewrite truthy_orUndefined. }
  rewrite Ha. destruct (active (start, c)) eqn:E; [| apply IH].
  cbn [map]. rewrite IH. f_equal.
  unfold active in E. simpl in E. apply andb_prop in E as [Ht _].
  unfold cameraFeed. simpl. now rewrite (orUndefined_truthy _ Ht).
Qed.

Lemma nth_error_indexedFrom (cams : list Camera) :
  forall start i c,
    nth_error cams i = Some c -> In (start + i, c) (indexedFrom start cams).
Proof.
  induction cams as [|c0 cams IH]; intros start [|i] c H; simpl in H;
    try discriminate.
  - inversion H; subst. left. now rewrite Nat.add_0_r.
  - right. replace (start + S i) with (S start + i) by lia.
    apply (IH (S start)). exact H.
Qed.

Lemma technicianFeeds_single (user : User) :
  role user = Some hospital ->
  technicianFeeds [user] = cameraFeeds user ++ screenshareFeeds user.
Proof.
  intros H. rewrite technicianFeeds_cons, (role_is_hospital _ H), userFeeds_eq.
  change (technicianFeeds []) with (@nil User). now rewrite app_nil_r.
Qed.

Lemma stationMessage_inv (st : Station) (u : User) :
  stationMessage st = Some (userUpdate u) ->
  exists i n sid, u = stationUser st i n sid.
Proof.
  unfold stationMessage.
  destruct (option_map id (st_identity st)) as [i|]; [|discriminate].
  destruct (option_map name (st_identity st)) as [n|]; [|discriminate].
  destruct (st_sessionId st) as [sid|]; [|discriminate].
  destruct (_ && _); [|discriminate].
  intros H. inversion H. eauto.
Qed.

(** The feeds a technician builds from the user of a station. *)
Lemma stationUser_feeds (st : Station) (i n sid : string) :
  technicianFeeds [stationUser st i n sid]
  = map (fun ic => cameraFeed (stationUser st i n sid) (fst ic) (snd ic))
        (filter active (indexed (st_cameraTracksInfo st)))
    ++ screenshareFeeds (stationUser st i n sid).
Proof.
  rewrite technicianFeeds_single by reflexivity. f_equal.
  unfold cameraFeeds, stationUser. cbn [tracks cameras].
  destruct (st_cameraTracksInfo st) as [|c info] eqn:E; [reflexivity|].
  change (0 <? length (serializedCameras (c :: info)))%nat with true.
  cbv iota. apply (serialized_feeds_from _ (c :: info) 0).
Qed.

End StationToTechnician.

Section StationTheorems.

Import MultiCamera HospitalBroadcast.

(** X6. Serialisation is invisible to the technician: whether a user
    carries the camera list as the station holds it or as the station
    serialises it, a technician builds the same feeds. *)
Theorem serialization_keeps_feeds
    (pre post : list User) (user : User) (cams : list Camera) :
  technicianFeeds
    (pre ++ withCameraArray user (Some (serializedCameras cams)) :: post)
  = technicianFeeds (pre ++ withCameraArray user (Some cams) :: post).
Proof.
  rewrite !technicianFeeds_app, !technicianFeeds_cons.
  f_equal. f_equal.
  change (role_is hospital (withCameraArray user (Some (serializedCameras cams))))
    with (role_is hospital user).
  change (role_is hospital (withCameraArray user (Some cams)))
    with (role_is hospital user).
  destruct (role_is hospital user); [| reflexivity].
  rewrite !userFeeds_eq. f_equal.
  unfold cameraFeeds. cbn [withCameraArray tracks cameras].
  exact (serialized_feeds_from user cams 0).
Qed.

(** X7. What a technician shows of a station: when the station has an
    identity and a session, the feeds built from the user it sends are,
    in the order of its camera list, one per entry with a non-empty
    token and the [enabled] flag set, under the id
    [id + "-camera-" + deviceId], with that token as video and
    [videoEnabled] true; then, if a screen share is pushed, one feed
    under [id + "-screenshare"] with the screen-share token. *)
Theorem station_as_seen_by_technician (st : Station) (u : User) :
  stationMessage st = Some (userUpdate u) ->
  map (fun f => (id f, video (tracks f), videoEnabled (tracks f)))
      (technicianFeeds [u])
  = map (fun ic => ((id u ++ "-camera-" ++ deviceId (snd ic))%string,
                    trackName (snd ic), Some true))
        (filter active (indexed (st_cameraTracksInfo st)))
    ++ (if JS.truthy (pt_screenshare (st_pushedTracks st))
        then [((id u ++ "-screenshare")%string,
               pt_screenshare (st_pushedTracks st),
               Some (um_screenShareEnabled (st_userMedia st)))]
        else []).
Proof.
  intros H. destruct (stationMessage_inv _ _ H) as (i & n & sid & ->).
  rewrite stationUser_feeds, map_app, map_map. f_equal.
  - apply map_ext_in. intros [k c] Hin. apply filter_In in Hin as [_ Hin].
    unfold active in Hin. simpl in Hin. apply andb_prop in Hin as [_ He].
    simpl. now rewrite He.
  - unfold screenshareFeeds. simpl.
    destruct (JS.truthy (pt_screenshare (st_pushedTracks st))); reflexivity.
Qed.

(** X8. From push to pull: when a push reports the track [(s, t)] of an
    enabled camera, with [s] and [t] non-empty and free of separators,
    and the station then sends its user, a technician has a feed for
    that camera, under [id + "-camera-" + deviceId], whose video token
    parses to session [s] and track [t]. *)
Theorem pushed_camera_is_pulled
    (st : Station) (camera : CameraStream) (s t : string)
    (prev : list Camera) (u : User) :
  is_empty s = false -> is_empty t = false ->
  contains_separator s = false -> contains_separator t = false ->
  cs_enabled camera = true ->
  st_cameraTracksInfo st = onCameraPushed camera (Some (s, t)) prev ->
  stationMessage st = Some (userUpdate u) ->
  exists feed,
    In feed (technicianFeeds [u]) /\
    id feed = (id u ++ "-camera-" ++ cs_deviceId camera)%string /\
    videoEnabled (tracks feed) = Some true /\
    trackObject (video (tracks feed)) = Some (mkTrackObject t s remote).
Proof.
  intros Hs Ht Fs Ft He Hinfo H.
  destruct (stationMessage_inv _ _ H) as (i & n & sid & ->).
  set (new := {| deviceId := cs_deviceId camera;
                 trackName := Some (encode s t); enabled := true |}).
  set (others := filter (fun c => negb (String.eqb (deviceId c)
                                          (cs_deviceId camera))) prev).
  assert (Hinfo' : st_cameraTracksInfo st = others ++ [new]).
  { rewrite Hinfo. unfold onCameraPushed, onPushedTrack. now rewrite He. }
  exists (cameraFeed (stationUser st i n sid) (length others) new).
  split; [| split; [reflexivity | split; [reflexivity |]]].
  - rewrite stationUser_feeds. apply in_or_app. left.
    apply (in_map (fun ic => cameraFeed (stationUser st i n sid)
                               (fst ic) (snd ic))
                  _ (length others, new)).
    apply filter_In. split.
    + rewrite Hinfo'. apply (nth_error_indexedFrom _ 0).
      rewrite nth_error_app2 by apply Nat.le_refl.
      now rewrite Nat.sub_diag.
    + unfold active, new. simpl. destruct s; reflexivity.
  - exact (decode_encode_valid s t Hs Ht Fs Ft).
Qed.

Lemma pushed_camera_is_pulled_witness :
  exists feed,
    In feed
       (technicianFeeds
          [stationUser
             {| st_identity := Some h1; st_sessionId := Some "s1";
                st_speaking := false;
                st_pushedTracks := mkPushedTracks None None None;
                st_userMedia := mkUserMedia true false false None;
                st_cameraTracksInfo :=
                  onCameraPushed (mkCameraStream "d1" "Front" 0 true)
                                 (Some ("s1", "v1")) [] |}
             "h1" "Hospital A" "s1"]) /\
    id feed = "h1-camera-d1" /\
    trackObject (video (tracks feed)) = Some (mkTrackObject "v1" "s1" remote).
Proof.
  destruct (pushed_camera_is_pulled
              {| st_identity := Some h1; st_sessionId := Some "s1";
                 st_speaking := false;
                 st_pushedTracks := mkPushedTracks None None None;
                 st_userMedia := mkUserMedia true false false None;
                 st_cameraTracksInfo :=
                   onCameraPushed (mkCameraStream "d1" "Front" 0 true)
                                  (Some ("s1", "v1")) [] |}
              (mkCameraStream "d1" "Front" 0 true) "s1" "v1" []
              _
              eq_refl eq_refl eq_refl eq_refl eq_refl eq_refl eq_refl)
    as (feed & Hin & Hid & _ & Hobj).
  exists feed. split; [exact Hin | split; [exact Hid | exact Hobj]].
Defined.

Lemma station_as_seen_by_technician_witness :
  map (fun f => (id f, video (tracks f), videoEnabled (tracks f)))
      (technicianFeeds
         [stationUser
            {| st_identity := Some h1; st_sessionId := Some "s1";
               st_speaking := false;
               st_pushedTracks := mkPushedTracks None None (Some "s1/scr");
               st_userMedia := mkUserMedia true false true None;
               st_cameraTracksInfo :=
                 [ {| deviceId := "d1"; trackName := Some "s1/v1";
                      enabled := true |} ] |}
            "h1" "Hospital A" "s1"])
  = [("h1-camera-d1", Some "s1/v1", Some true);
     ("h1-screenshare", Some "s1/scr", Some true)].
Proof.
  exact (station_as_seen_by_technician
           {| st_identity := Some h1; st_sessionId := Some "s1";
              st_speaking := false;
              st_pushedTracks := mkPushedTracks None None (Some "s1/scr");
              st_userMedia := mkUserMedia true false true None;
              st_cameraTracksInfo :=
                [ {| deviceId := "d1"; trackName := Some "s1/v1";
                     enabled := true |} ] |}
           _ eq_refl).
Defined.

End StationTheorems.

(* ===================================================================== *)
(** * Further properties: the technician's feeds                          *)
(* ===================================================================== *)

Section FeedIdentity.

Lemma string_app_cancel (a x y : string) :
  (a ++ x)%string = (a ++ y)%string -> x = y.
Proof.
  induction a as [|c a IH]; simpl; intros H; [exact H|].
  inversion H. auto.
Qed.

Lemma NoDup_map_injective {A B : Type} (f : A -> B) (xs : list A) :
  (forall x y, f x = f y -> x = y) -> NoDup xs -> NoDup (map f xs).
Proof.
  intros Hf. induction 1 as [|x xs Hx Hxs IH]; simpl; constructor; auto.
  intros Hin. apply in_map_iff in Hin as (y & Hy & Hin).
  apply Hf in Hy. now subst.
Qed.

Lemma indexedFrom_snd (cams : list Camera) :
  forall start, map snd (indexedFrom start cams) = cams.
Proof.
  induction cams as [|c cams IH]; intros start; [reflexivity|].
  change (indexedFrom start (c :: cams))
    with ((start, c) :: indexedFrom (S start) cams).
  simpl. now rewrite IH.
Qed.

Lemma cameraFeeds_ids (user : User) (cams : list Camera) :
  cameras (tracks user) = Some cams ->
  map id (cameraFeeds user)
  = map (fun d => (id user ++ "-camera-" ++ d)%string)
        (map (fun ic : nat * Camera => deviceId (snd ic))
             (filter active (indexed cams))).
Proof.
  intros H. unfold cameraFeeds. rewrite H, !map_map. reflexivity.
Qed.

Lemma userFeeds_In (user feed : User) :
  In feed (userFeeds user) ->
  (exists i c cams,
      cameras (tracks user) = Some cams /\ nth_error cams i = Some c /\
      JS.truthy (trackName c) = true /\ enabled c = true /\
      feed = cameraFeed user i c) \/
  (JS.truthy (screenshare (tracks user)) = true /\
   feed = screenshareFeed user).
Proof.
  rewrite userFeeds_eq. intros H. apply in_app_or in H as [H | H].
  - left. unfold cameraFeeds in H.
    destruct (cameras (tracks user)) as [cams|] eqn:E; [|contradiction].
    apply in_map_iff in H as ([i c] & <- & H).
    apply filter_In in H as [Hin Hact].
    apply indexedFrom_In in Hin as [_ Hin]. rewrite Nat.sub_0_r in Hin.
    unfold active in Hact. simpl in Hact. apply andb_prop in Hact as [Ht He].
    exists i, c, cams. auto.
  - right. unfold screenshareFeeds in H.
    destruct (JS.truthy (screenshare (tracks user))) eqn:E; [|contradiction].
    destruct H as [<- | []]. auto.
Qed.

Lemma role_is_hospital_inv (u : User) :
  role_is hospital u = true -> role u = Some hospital.
Proof.
  unfold role_is. destruct (role u) as [[]|]; simpl; try discriminate.
  reflexivity.
Qed.

Lemma console_of_feeds (users : list User) :
  forall console : Console,
    snd (runState (hospitalFeeds users) console)
    = console ++
      map (fun u => LogCreatedFeeds (name u) (length (userFeeds u))) users.
Proof.
  induction users as [|u users IH]; intros console.
  - simpl. now rewrite app_nil_r.
  - unfold hospitalFeeds in *. simpl.
    specialize (IH (console ++ [LogCreatedFeeds (name u) (length (userFeeds u))])).
    destruct (runState (flatMap hospitalFeeds_callback users) _) as [zs c'].
    simpl in *. rewrite IH, <- app_assoc. reflexivity.
Qed.

End FeedIdentity.

(** X9. Distinct tiles for one station: when the cameras of a user have
    pairwise distinct device ids, the feeds built for that user have
    pairwise distinct ids. *)
Theorem feed_ids_distinct (user : User) :
  (forall cams, cameras (tracks user) = Some cams -> NoDup (map deviceId cams)) ->
  NoDup (map id (technicianFeeds [user])).
Proof.
  intros Hcams. rewrite technicianFeeds_cons.
  change (technicianFeeds []) with (@nil User). rewrite app_nil_r.
  destruct (role_is hospital user); [| constructor].
  rewrite userFeeds_eq, map_app. apply NoDup_app.
  - destruct (cameras (tracks user)) as [cams|] eqn:E.
    + rewrite (cameraFeeds_ids _ _ E).
      apply NoDup_map_injective.
      { intros x y H. apply string_app_cancel in H.
        now apply (string_app_cancel "-camera-") in H. }
      apply NoDup_map_filter. rewrite <- (map_map snd deviceId).
      unfold indexed. rewrite indexedFrom_snd. now apply Hcams.
    + unfold cameraFeeds. rewrite E. constructor.
  - unfold screenshareFeeds.
    destruct (JS.truthy (screenshare (tracks user))); repeat constructor.
    simpl. tauto.
  - intros x Hx Hy. unfold screenshareFeeds in Hy.
    destruct (JS.truthy (screenshare (tracks user))); [| contradiction].
    destruct Hy as [<- | []].
    apply in_map_iff in Hx as (f & Hid & Hf). unfold cameraFeeds in Hf.
    destruct (cameras (tracks user)); [| contradiction].
    apply in_map_iff in Hf as (ic & <- & _). simpl in Hid.
    apply string_app_cancel in Hid. discriminate Hid.
Qed.

Lemma feed_ids_distinct_witness :
  NoDup (map id (technicianFeeds [h1])).
Proof.
  apply (feed_ids_distinct h1). intros cams H. inversion H; subst.
  simpl. repeat constructor; simpl; intuition discriminate.
Defined.

(** X10. Where a feed comes from: every feed was built for a user of the
    input whose role is [hospital]; its id starts with that user's id,
    its video identifier is a non-empty string, and it repeats the
    user's role, audio identifier and flags, session, [joined],
    [speaking] and [raisedHand]. *)
Theorem feed_provenance (otherUsers : list User) (feed : User) :
  In feed (technicianFeeds otherUsers) ->
  exists user,
    In user otherUsers /\ role user = Some hospital /\
    (exists suffix, id feed = (id user ++ suffix)%string) /\
    JS.truthy (video (tracks feed)) = true /\
    role feed = role user /\
    audio (tracks feed) = audio (tracks user) /\
    audioEnabled (tracks feed) = audioEnabled (tracks user) /\
    audioUnavailable (tracks feed) = audioUnavailable (tracks user) /\
    transceiverSessionId feed = transceiverSessionId user /\
    joined feed = joined user /\
    speaking feed = speaking user /\
    raisedHand feed = raisedHand user.
Proof.
  rewrite technicianFeeds_eq. intros H.
  apply in_flat_map in H as (user & Hu & Hf).
  unfold hospitalUsers in Hu. apply filter_In in Hu as [Hin Hrole].
  exists user. split; [exact Hin |].
  split; [now apply role_is_hospital_inv |].
  apply userFeeds_In in Hf
    as [(i & c & cams & _ & _ & Ht & _ & ->) | [Hs ->]]; simpl.
  - split; [now exists ("-camera-" ++ deviceId c)%string |]. auto 12.
  - split; [now exists "-screenshare" |]. auto 12.
Qed.

Lemma feed_provenance_witness :
  exists user,
    In user [drSmith; h1] /\ role user = Some hospital /\
    audio (tracks (screenshareFeed h1)) = audio (tracks user).
Proof.
  destruct (feed_provenance [drSmith; h1] (screenshareFeed h1))
    as (user & Hin & Hrole & _ & _ & _ & Haudio & _).
  - right. left. reflexivity.
  - exists user. split; [exact Hin | split; [exact Hrole | exact Haudio]].
Defined.

(** X11. What a render logs: the console keeps what it held and gains
    the summary of the hospital users, then one line per hospital user,
    in input order, with the user's name and the number of feeds built
    for that user; the numbers add up to the number of feeds returned. *)
Theorem render_console (otherUsers : list User) (console : Console) :
  snd (runState (JoinedTechnicianStation otherUsers) console)
  = console
    ++ LogHospitalUsers (hospitalUsersSummary (hospitalUsers otherUsers))
    :: map (fun u => LogCreatedFeeds (name u) (length (userFeeds u)))
           (hospitalUsers otherUsers)
  /\
  list_sum (map (fun u => length (userFeeds u)) (hospitalUsers otherUsers))
  = length (feedsOn console otherUsers).
Proof.
  split.
  - unfold JoinedTechnicianStation. simpl.
    rewrite console_of_feeds, <- app_assoc. reflexivity.
  - rewrite feedsOn_eq, length_flat_map. reflexivity.
Qed.

(* ===================================================================== *)
(** * Further properties: status messages                                 *)
(* ===================================================================== *)



(** X13. A departure shows nowhere: the user of the unmount message has
    no role, so a hospital station that is given that user lists no tile
    for it and a technician station builds no feed from it, whatever
    else the room holds. *)
Theorem leaving_user_is_dropped
    (cfg : Config) (i n : string) (pre post : list User) :
  technicianUsers (pre ++ leavingUser cfg i n :: post)
  = technicianUsers (pre ++ post) /\
  technicianFeeds (pre ++ leavingUser cfg i n :: post)
  = technicianFeeds (pre ++ post).
Proof.
  split.
  - unfold technicianUsers. now rewrite !filter_app.
  - rewrite !technicianFeeds_app, technicianFeeds_cons. reflexivity.
Qed.

(** X14. The status hook publishes no camera list: the feeds a
    technician builds from a user sent by the status effect are the
    screen-share feed alone, when the role given to the hook is
    [hospital] and a screen share is pushed, and none otherwise. *)
Theorem status_user_feeds (cfg : Config) (i n : string) :
  technicianFeeds [statusUser cfg i n]
  = match cfg_role cfg with
    | Some hospital =>
        if JS.truthy (pt_screenshare (cfg_pushedTracks cfg))
        then [screenshareFeed (statusUser cfg i n)]
        else []
    | _ => []
    end.
Proof.
  rewrite technicianFeeds_cons. change (technicianFeeds []) with (@nil User).
  rewrite app_nil_r. unfold role_is. simpl.
  destruct (cfg_role cfg) as [[]|]; reflexivity.
Qed.

(* ===================================================================== *)
(** * Further properties: the set of active cameras                       *)
(* ===================================================================== *)

Section CameraMapFacts.

Import MultiCamera.

Lemma get_In {V : Type} (m : JSMap.t V) (k : string) (v : V) :
  JSMap.get m k = Some v -> In (k, v) m.
Proof.
  induction m as [|[k' v'] m IH]; simpl; [discriminate|].
  destruct (String.eqb k' k) eqn:E.
  - apply String.eqb_eq in E. intros H. inversion H; subst. now left.
  - intros H. right. now apply IH.
Qed.

Lemma get_None {V : Type} (m : JSMap.t V) (k : string) :
  JSMap.get m k = None -> ~ In k (JSMap.keys m).
Proof.
  induction m as [|[k' v'] m IH]; simpl; [tauto|].
  destruct (String.eqb k' k) eqn:E; [discriminate|].
  apply String.eqb_neq in E. intros H [Hk | Hk]; [tauto | now apply IH].
Qed.

Lemma set_keys {V : Type} (m : JSMap.t V) (k : string) (v : V) :
  JSMap.keys (JSMap.set m k v)
  = match JSMap.get m k with
    | Some _ => JSMap.keys m
    | None => JSMap.keys m ++ [k]
    end.
Proof.
  unfold JSMap.keys.
  induction m as [|[k' v'] m IH]; simpl; [reflexivity|].
  destruct (String.eqb k' k) eqn:E; simpl; [reflexivity|].
  rewrite IH. now destruct (JSMap.get m k).
Qed.

Lemma set_In {V : Type} (m : JSMap.t V) (k : string) (v : V) (kv : string * V) :
  In kv (JSMap.set m k v) -> kv = (k, v) \/ In kv m.
Proof.
  induction m as [|[k' v'] m IH]; simpl.
  - intros [<- | []]. now left.
  - destruct (String.eqb k' k) eqn:E; simpl.
    + apply String.eqb_eq in E. subst. intros [<- | H]; auto.
    + intros [<- | H]; auto. apply IH in H as [H | H]; auto.
Qed.

Lemma delete_In {V : Type} (m : JSMap.t V) (k : string) (kv : string * V) :
  In kv (JSMap.delete m k) -> In kv m.
Proof.
  induction m as [|[k' v'] m IH]; simpl; [tauto|].
  destruct (String.eqb k' k); simpl; [auto|].
  intros [<- | H]; auto.
Qed.

Lemma delete_keys {V : Type} (m : JSMap.t V) (k : string) :
  NoDup (JSMap.keys m) ->
  NoDup (JSMap.keys (JSMap.delete m k)) /\
  ~ In k (JSMap.keys (JSMap.delete m k)).
Proof.
  induction m as [|[k' v'] m IH]; simpl; intros H.
  - split; [constructor | tauto].
  - inversion H as [|? ? Hk Hm]; subst.
    destruct (String.eqb k' k) eqn:E.
    + apply String.eqb_eq in E. subst. auto.
    + apply String.eqb_neq in E. destruct (IH Hm) as [IH1 IH2]. simpl. split.
      * constructor; [| exact IH1]. intros Hin. apply Hk.
        apply in_map_iff in Hin as (kv & <- & Hin).
        apply delete_In in Hin. now apply in_map.
      * intros [Hin | Hin]; tauto.
Qed.

Lemma wellKeyed_set (m : CameraMap) (k : string) (v : CameraStream) :
  wellKeyed m -> cs_deviceId v = k -> wellKeyed (JSMap.set m k v).
Proof.
  intros [Hk Hv] Hd. split.
  - rewrite set_keys. destruct (JSMap.get m k) eqn:E; [exact Hk|].
    apply NoDup_snoc; [exact Hk | now apply get_None].
  - apply Forall_forall. intros kv Hin. apply set_In in Hin as [-> | Hin].
    + exact Hd.
    + revert kv Hin. now apply Forall_forall.
Qed.

Lemma wellKeyed_delete (m : CameraMap) (k : string) :
  wellKeyed m ->
  wellKeyed (JSMap.delete m k) /\
  ~ In k (map cs_deviceId (JSMap.values (JSMap.delete m k))).
Proof.
  intros [Hk Hv]. destruct (delete_keys m k Hk) as [H1 H2].
  assert (Hv' : Forall (fun kv => cs_deviceId (snd kv) = fst kv)
                       (JSMap.delete m k)).
  { apply Forall_forall. intros kv Hin. apply delete_In in Hin.
    revert kv Hin. now apply Forall_forall. }
  split; [now split |].
  intros Hin. apply H2. unfold JSMap.values in Hin. rewrite map_map in Hin.
  apply in_map_iff in Hin as (kv & Hd & Hin).
  apply in_map_iff. exists kv. split; [| exact Hin].
  rewrite <- Hd. symmetry.
  apply (proj1 (Forall_forall _ _) Hv' kv Hin).
Qed.

Lemma wellKeyed_deviceIds (m : CameraMap) :
  wellKeyed m -> map cs_deviceId (JSMap.values m) = JSMap.keys m.
Proof.
  intros [_ Hv]. unfold JSMap.values, JSMap.keys. rewrite map_map.
  apply map_ext_in. intros kv Hin. revert kv Hin. now apply Forall_forall.
Qed.

Lemma removeCamera_run (d : string) (m : CameraMap) (e : list MediaEffect) :
  runState (removeCamera d m) e
  = match JSMap.get m d with
    | Some camera =>
        (JSMap.delete m d,
         e ++ [StopTracks (cs_stream camera);
               SubjectNext (cs_stream camera) false;
               SubjectComplete (cs_stream camera)])
    | None => (m, e)
    end.
Proof.
  unfold removeCamera. destruct (JSMap.get m d); [| reflexivity].
  simpl. now rewrite <- !app_assoc.
Qed.

Lemma toggleCamera_run (d : string) (b : bool) (m : CameraMap)
    (e : list MediaEffect) :
  runState (toggleCamera d b m) e
  = match JSMap.get m d with
    | Some camera =>
        (JSMap.set m d
           {| cs_deviceId := cs_deviceId camera; cs_label := cs_label camera;
              cs_stream := cs_stream camera; cs_enabled := b |},
         e ++ [SetVideoEnabled (cs_stream camera) b;
               SubjectNext (cs_stream camera) b])
    | None => (m, e)
    end.
Proof.
  unfold toggleCamera. destruct (JSMap.get m d); [| reflexivity].
  simpl. now rewrite <- !app_assoc.
Qed.

Lemma labelFor_not_empty (devices : list MediaDeviceInfo) (d : string) :
  is_empty (labelFor devices d) = false.
Proof.
  unfold labelFor. destruct (findDevice devices d) as [device|]; [| reflexivity].
  destruct (md_label device); reflexivity.
Qed.

Lemma run_app (xs ys : list Action) (h : Hook) (e : list MediaEffect) :
  runState (run (xs ++ ys) h) e
  = runState (run ys (fst (runState (run xs h) e)))
             (snd (runState (run xs h) e)).
Proof.
  revert h e. induction xs as [|a xs IH]; intros h e; [reflexivity|].
  simpl. destruct (runState (step a h) e) as [h' e']. simpl. apply IH.
Qed.

End CameraMapFacts.

Section HookInvariant.

Import MultiCamera.

Lemma forall_entries_set (P : CameraStream -> Prop) (m : CameraMap)
    (k : string) (v : CameraStream) :
  Forall (fun kv => P (snd kv)) m -> P v ->
  Forall (fun kv => P (snd kv)) (JSMap.set m k v).
Proof.
  intros Hm Hv. apply Forall_forall. intros kv Hin.
  apply set_In in Hin as [-> | Hin]; [exact Hv |].
  apply (proj1 (Forall_forall _ _) Hm kv Hin).
Qed.

Lemma forall_entries_delete (P : CameraStream -> Prop) (m : CameraMap)
    (k : string) :
  Forall (fun kv => P (snd kv)) m ->
  Forall (fun kv => P (snd kv)) (JSMap.delete m k).
Proof.
  intros Hm. apply Forall_forall. intros kv Hin. apply delete_In in Hin.
  apply (proj1 (Forall_forall _ _) Hm kv Hin).
Qed.

Lemma forall_widen {A : Type} (f : A -> StreamHandle)
    (S T : list StreamHandle) (xs : list A) :
  Forall (fun x => In (f x) S) xs -> Forall (fun x => In (f x) (S ++ T)) xs.
Proof.
  apply Forall_impl. intros x H. apply in_or_app. now left.
Qed.

Lemma step_remove (d : string) (h : Hook) (e : list MediaEffect) :
  runState (step (Remove d) h) e
  = (withCameras h (fst (runState (removeCamera d (h_cameras h)) e)),
     snd (runState (removeCamera d (h_cameras h)) e)).
Proof.
  simpl. now destruct (runState (removeCamera d (h_cameras h)) e).
Qed.

Lemma step_toggle (d : string) (b : bool) (h : Hook) (e : list MediaEffect) :
  runState (step (Toggle d b) h) e
  = (withCameras h (fst (runState (toggleCamera d b (h_cameras h)) e)),
     snd (runState (toggleCamera d b (h_cameras h)) e)).
Proof.
  simpl. now destruct (runState (toggleCamera d b (h_cameras h)) e).
Qed.

Lemma step_inOrder (S : list StreamHandle) (a : Action) (h : Hook)
    (e : list MediaEffect) :
  inOrder S h e ->
  inOrder (S ++ addedStreams [a])
          (fst (runState (step a h) e)) (snd (runState (step a h) e)).
Proof.
  intros (Hk & Hl & Hs & Hm & He).
  assert (Hs' := forall_widen (fun kv : string * CameraStream =>
                                 cs_stream (snd kv)) S (addedStreams [a]) _ Hs).
  assert (He' := forall_widen streamOf S (addedStreams [a]) _ He).
  assert (Hsame : inOrder (S ++ addedStreams [a]) h e).
  { split; [exact Hk | split; [exact Hl | split; [exact Hs' | split;
      [exact Hm | exact He']]]]. }
  destruct a as [devs | | devs d s | msg | d | d b].
  - exact Hsame.
  - exact Hsame.
  - simpl fst. simpl snd. unfold inOrder. cbn [withError withCameras h_cameras
                                                h_camerasAtMount].
    unfold addCamera_resolved. split; [| split; [| split; [| split]]].
    + now apply wellKeyed_set.
    + apply (forall_entries_set (fun c => is_empty (cs_label c) = false));
        [exact Hl | apply labelFor_not_empty].
    + apply (forall_entries_set (fun c => In (cs_stream c) _));
        [exact Hs' |]. simpl. apply in_or_app. right. now left.
    + exact Hm.
    + exact He'.
  - exact Hsame.
  - rewrite step_remove, removeCamera_run.
    destruct (JSMap.get (h_cameras h) d) as [camera|] eqn:G;
      cbn [fst snd]; unfold inOrder;
      cbn [withCameras h_cameras h_camerasAtMount];
      [| destruct h; exact Hsame].
    split; [| split; [| split; [| split]]].
    + apply wellKeyed_delete, Hk.
    + now apply (forall_entries_delete
                   (fun c => is_empty (cs_label c) = false)).
    + now apply (forall_entries_delete (fun c => In (cs_stream c) _)).
    + exact Hm.
    + apply Forall_app. split; [exact He' |].
      apply get_In in G.
      pose proof (proj1 (Forall_forall _ _) Hs' _ G) as Hin. simpl in Hin.
      repeat constructor; exact Hin.
  - rewrite step_toggle, toggleCamera_run.
    destruct (JSMap.get (h_cameras h) d) as [camera|] eqn:G;
      cbn [fst snd]; unfold inOrder;
      cbn [withCameras h_cameras h_camerasAtMount];
      [| destruct h; exact Hsame].
    apply get_In in G.
    pose proof (proj1 (Forall_forall _ _) Hs' _ G) as Hin. simpl in Hin.
    split; [| split; [| split; [| split]]].
    + apply wellKeyed_set; [exact Hk |]. simpl.
      exact (proj1 (Forall_forall _ _) (proj2 Hk) _ G).
    + apply (forall_entries_set (fun c => is_empty (cs_label c) = false));
        [exact Hl |]. simpl.
      exact (proj1 (Forall_forall _ _) Hl _ G).
    + now apply (forall_entries_set (fun c => In (cs_stream c) _)).
    + exact Hm.
    + apply Forall_app. split; [exact He' |]. repeat constructor; exact Hin.
Qed.

Lemma run_single (a : Action) (h : Hook) (e : list MediaEffect) :
  runState (run [a] h) e = runState (step a h) e.
Proof.
  unfold run. cbn [bind Monad_state runState].
  destruct (runState (step a h) e) as [h' e']. reflexivity.
Qed.

Lemma run_inOrder (actions : list Action) :
  forall (S : list StreamHandle) (h : Hook) (e : list MediaEffect),
    inOrder S h e ->
    inOrder (S ++ addedStreams actions)
            (fst (runState (run actions h) e))
            (snd (runState (run actions h) e)).
Proof.
  induction actions as [|a actions IH]; intros S h e H.
  - simpl. now rewrite app_nil_r.
  - change (a :: actions) with ([a] ++ actions).
    rewrite run_app. unfold addedStreams. rewrite flat_map_app, app_assoc.
    apply IH. rewrite run_single.
    apply (step_inOrder S a h e H).
Qed.

Lemma mount_inOrder : inOrder [] mount [].
Proof. repeat split; constructor. Qed.

Lemma after_inOrder (actions : list Action) :
  inOrder (addedStreams actions) (after actions)
          (snd (runState (run actions mount) [])).
Proof. exact (run_inOrder actions [] mount [] mount_inOrder). Qed.

End HookInvariant.

Section HookTheorems.

Import MultiCamera HospitalBroadcast.

Lemma toggle_deviceIds (m : CameraMap) (d : string) (b : bool)
    (camera : CameraStream) :
  JSMap.get m d = Some camera ->
  map cs_deviceId
      (JSMap.values
         (JSMap.set m d
            {| cs_deviceId := cs_deviceId camera; cs_label := cs_label camera;
               cs_stream := cs_stream camera; cs_enabled := b |}))
  = map cs_deviceId (JSMap.values m).
Proof.
  unfold JSMap.values.
  induction m as [|[k v] m IH]; simpl; [discriminate|].
  destruct (String.eqb k d); simpl.
  - intros H. inversion H; subst. reflexivity.
  - intros H. now rewrite IH.
Qed.

Lemma removed_not_active (actions : list Action) (d : string) :
  ~ In d (map cs_deviceId (activeCameras (after (actions ++ [Remove d])))).
Proof.
  unfold after. rewrite run_app, run_single, step_remove, removeCamera_run.
  destruct (after_inOrder actions) as (Hk & _).
  fold (after actions).
  destruct (JSMap.get (h_cameras (after actions)) d) eqn:G;
    unfold activeCameras; cbn [fst withCameras h_cameras].
  - apply wellKeyed_delete, Hk.
  - rewrite (wellKeyed_deviceIds _ Hk). now apply get_None.
Qed.

(** X15. One camera per device: whatever devices were enumerated, added,
    removed or toggled since the hook was mounted, and whichever adds
    failed, the cameras it returns have pairwise distinct device ids. *)
Theorem active_cameras_distinct (actions : list Action) :
  NoDup (map cs_deviceId (activeCameras (after actions))).
Proof.
  destruct (after_inOrder actions) as (Hk & _).
  unfold activeCameras. rewrite (wellKeyed_deviceIds _ Hk). apply Hk.
Qed.

(** X16. Every camera has a label: the label of a camera the hook
    returns is never the empty string, also when the device is unknown
    to the hook or has an empty label. *)
Theorem active_cameras_labelled (actions : list Action) :
  Forall (fun camera => is_empty (cs_label camera) = false)
         (activeCameras (after actions)).
Proof.
  destruct (after_inOrder actions) as (_ & Hl & _).
  unfold activeCameras, JSMap.values. apply Forall_map. exact Hl.
Qed.

(** X17. The hook touches its own streams only: every [stop], [enabled]
    assignment, [next] and [complete] it performs concerns a stream that
    [getUserMedia] handed to it before. *)
Theorem media_effects_on_added_streams (actions : list Action) :
  Forall (fun e => In (streamOf e) (addedStreams actions))
         (snd (runState (run actions mount) [])).
Proof.
  destruct (after_inOrder actions) as (_ & _ & _ & _ & He). exact He.
Qed.

(** X18. Unmounting releases no camera: the cleanup runs over the map of
    the first render, which is empty, so it stops no track and completes
    no subject, whatever cameras are active by then. *)
Theorem unmount_stops_nothing (actions : list Action)
    (done : list MediaEffect) :
  h_camerasAtMount (after actions) = [] /\
  runState (unmount (after actions)) done = (tt, done).
Proof.
  destruct (after_inOrder actions) as (_ & _ & _ & Hm & _).
  split; [exact Hm |]. unfold unmount. now rewrite Hm.
Qed.

(** X19. Toggling is invisible to the push effect: enabling or disabling
    a camera, active or not, leaves the device ids of the returned
    cameras, and so the dependency string of the push effect, as they
    were. *)
Theorem toggle_keeps_cameraDeviceIds
    (d : string) (b : bool) (h : Hook) (done : list MediaEffect) :
  map cs_deviceId (activeCameras (fst (runState (step (Toggle d b) h) done)))
  = map cs_deviceId (activeCameras h) /\
  cameraDeviceIds (activeCameras (fst (runState (step (Toggle d b) h) done)))
  = cameraDeviceIds (activeCameras h).
Proof.
  assert (H : map cs_deviceId
                (activeCameras (fst (runState (step (Toggle d b) h) done)))
              = map cs_deviceId (activeCameras h)).
  { rewrite step_toggle, toggleCamera_run. unfold activeCameras.
    destruct (JSMap.get (h_cameras h) d) eqn:G;
      cbn [fst withCameras h_cameras]; [| reflexivity].
    now apply toggle_deviceIds. }
  split; [exact H |]. unfold cameraDeviceIds. now rewrite H.
Qed.

(** X20. A removed camera leaves the technician's grid: once a camera is
    removed and the station has dropped the entries of cameras that are
    gone, no feed built from the user the station sends carries the id
    of that camera. *)
Theorem removed_camera_has_no_feed
    (actions : list Action) (d : string) (prev : list Camera)
    (st : Station) (u : User) :
  st_cameraTracksInfo st
  = retainActive (activeCameras (after (actions ++ [Remove d]))) prev ->
  stationMessage st = Some (userUpdate u) ->
  forall feed,
    In feed (technicianFeeds [u]) ->
    id feed <> (id u ++ "-camera-" ++ d)%string.
Proof.
  intros Hinfo H feed Hin Hid.
  destruct (stationMessage_inv _ _ H) as (i & n & sid & ->).
  rewrite stationUser_feeds in Hin. apply in_app_or in Hin as [Hin | Hin].
  - apply in_map_iff in Hin as ([k c] & <- & Hin).
    apply filter_In in Hin as [Hin _].
    apply indexedFrom_In in Hin as [_ Hin]. apply nth_error_In in Hin.
    rewrite Hinfo in Hin. unfold retainActive in Hin.
    apply filter_In in Hin as [_ Hin].
    apply existsb_exists in Hin as (x & Hx & Heq).
    apply String.eqb_eq in Heq. simpl in Hid.
    apply string_app_cancel in Hid.
    apply (string_app_cancel "-camera-") in Hid.
    apply (removed_not_active actions d).
    rewrite <- Heq, Hid in Hx. exact Hx.
  - unfold screenshareFeeds in Hin.
    destruct (JS.truthy _); [| contradiction].
    destruct Hin as [<- | []]. simpl in Hid.
    apply string_app_cancel in Hid. discriminate Hid.
Qed.

Lemma removed_camera_has_no_feed_witness :
  Forall (fun feed => id feed <> "h1-camera-d1")
    (technicianFeeds
       [stationUser
          {| st_identity := Some h1; st_sessionId := Some "s1";
             st_speaking := false;
             st_pushedTracks := mkPushedTracks None None None;
             st_userMedia := mkUserMedia true false false None;
             st_cameraTracksInfo :=
               retainActive
                 (activeCameras
                    (after ([AddResolved [] "d1" 1; AddResolved [] "d2" 2]
                            ++ [Remove "d1"])))
                 [ {| deviceId := "d1"; trackName := Some "s1/v1";
                      enabled := true |};
                   {| deviceId := "d2"; trackName := Some "s1/v2";
                      enabled := true |} ] |}
          "h1" "Hospital A" "s1"]).
Proof.
  apply Forall_forall.
  exact (removed_camera_has_no_feed
           [AddResolved [] "d1" 1; AddResolved [] "d2" 2] "d1"
           [ {| deviceId := "d1"; trackName := Some "s1/v1"; enabled := true |};
             {| deviceId := "d2"; trackName := Some "s1/v2"; enabled := true |} ]
           {| st_identity := Some h1; st_sessionId := Some "s1";
              st_speaking := false;
              st_pushedTracks := mkPushedTracks None None None;
              st_userMedia := mkUserMedia true false false None;
              st_cameraTracksInfo :=
                retainActive
                  (activeCameras
                     (after ([AddResolved [] "d1" 1; AddResolved [] "d2" 2]
                             ++ [Remove "d1"])))
                  [ {| deviceId := "d1"; trackName := Some "s1/v1";
                       enabled := true |};
                    {| deviceId := "d2"; trackName := Some "s1/v2";
                       enabled := true |} ] |}
           _ eq_refl eq_refl).
Defined.

Example hook_run :
  map (fun c => (cs_deviceId c, cs_label c, cs_enabled c))
      (activeCameras
         (after [DevicesEnumerated [mkDevice "d1" videoinput "Front";
                                    mkDevice "m1" audioinput "Mic"];
                 AddResolved [mkDevice "d1" videoinput "Front"] "d1" 1;
                 AddResolved [] "0123456789abcdef" 2;
                 Toggle "d1" false;
                 Remove "nowhere"]))
  = [("d1", "Front", false); ("0123456789abcdef", "Camera 01234567", true)].
Proof. reflexivity. Qed.

Example hook_effects :
  snd (runState (run [AddResolved [] "d1" 1; Toggle "d1" false; Remove "d1"]
                     mount) [])
  = [SetVideoEnabled 1 false; SubjectNext 1 false;
     StopTracks 1; SubjectNext 1 false; SubjectComplete 1].
Proof. reflexivity. Qed.

End HookTheorems.
